(** * Business filtering utilities: a shallow embedding of [business_filter.py]

    The development follows the source file top to bottom: the keyword
    tables and [is_truck_relevant], the chunked filter
    [filter_truck_businesses], [clean_name] and the chunked
    [clean_business_names], and [normalize_for_matching].

    Modelling choices.
    - A Python [str] is a Rocq [string].  The character classes of Python
      ([str.isspace], the regular-expression classes [\s] and [\w],
      [str.lower], [str.upper], [str.isupper], [str.title]) are modelled
      on the 7-bit ASCII range, where every literal of the source lives;
      a character above 127 has no case and belongs to no class here, so
      the case mappings of non-ASCII code points are outside this model.
      The module [Uni] models the classifier and [clean_name] on code
      points, with the case mappings of Python on the ASCII range and on a
      few code points beyond it; on ASCII text the two models agree.
    - A value that is not a [str] (Python [None], a float NaN) in the
      [business_name] column is [None : option string].
    - The [confidence] column holds binary64 floats, as pandas does.
    - An exception is a value of [exn]; a call that can raise returns a
      [result].  Printing and the progress bar do not touch the data and
      are left out. *)

From Stdlib Require Import String Ascii List Bool Arith NArith Lia Floats.
Import ListNotations.
Local Open Scope string_scope.
Local Open Scope list_scope.
Local Open Scope nat_scope.

Set Implicit Arguments.
Set Warnings "-abstract-large-number".

(** ** Characters *)

Module Char.

Definition code (c : ascii) : N := N_of_ascii c.

(** [c.isupper()] and [c.islower()] for one character. *)
Definition is_upper (c : ascii) : bool :=
  ((65 <=? code c) && (code c <=? 90))%N.

Definition is_lower (c : ascii) : bool :=
  ((97 <=? code c) && (code c <=? 122))%N.

(** A cased character is one that has an upper or a lower form. *)
Definition is_cased (c : ascii) : bool := is_upper c || is_lower c.

Definition is_digit (c : ascii) : bool :=
  ((48 <=? code c) && (code c <=? 57))%N.

(** [c.isspace()], which is also the class [\s] of [re] on a [str]
    pattern: tab, line feed, vertical tab, form feed, carriage return,
    the four separators 0x1c to 0x1f, and the space. *)
Definition is_space (c : ascii) : bool :=
  (((9 <=? code c) && (code c <=? 13))
   || ((28 <=? code c) && (code c <=? 31))
   || (code c =? 32))%N.

(** The class [\w] of [re]: alphanumeric or underscore. *)
Definition is_word (c : ascii) : bool :=
  (is_cased c || is_digit c || (code c =? 95))%N.

(** The class of the first substitution of [clean_name]: the double
    quote (34) and the single quote (39). *)
Definition is_quote (c : ascii) : bool :=
  ((code c =? 34) || (code c =? 39))%N.

Definition to_lower (c : ascii) : ascii :=
  if is_upper c then ascii_of_N (code c + 32) else c.

Definition to_upper (c : ascii) : ascii :=
  if is_lower c then ascii_of_N (code c - 32) else c.

End Char.

(** ** Strings: the [str] methods and [re.sub] calls the source uses *)

Module Str.

Fixpoint map (f : ascii -> ascii) (s : string) : string :=
  match s with
  | EmptyString => EmptyString
  | String c s' => String (f c) (map f s')
  end.

Fixpoint all (p : ascii -> bool) (s : string) : bool :=
  match s with
  | EmptyString => true
  | String c s' => p c && all p s'
  end.

Fixpoint any (p : ascii -> bool) (s : string) : bool :=
  match s with
  | EmptyString => false
  | String c s' => p c || any p s'
  end.

Definition is_empty (s : string) : bool :=
  match s with EmptyString => true | String _ _ => false end.

(** [s.lower()] and [s.upper()]. *)
Definition lower (s : string) : string := map Char.to_lower s.
Definition upper (s : string) : string := map Char.to_upper s.

(** [sub in s]: [sub] occurs in [s] at some position. *)
Fixpoint contains (sub s : string) : bool :=
  String.prefix sub s
  || match s with
     | EmptyString => false
     | String _ s' => contains sub s'
     end.

(** [s.endswith(suffix)]. *)
Fixpoint endswith (s suffix : string) : bool :=
  String.eqb s suffix
  || match s with
     | EmptyString => false
     | String _ s' => endswith s' suffix
     end.

(** [s[:n]]. *)
Fixpoint take (n : nat) (s : string) : string :=
  match n, s with
  | S n', String c s' => String c (take n' s')
  | _, _ => EmptyString
  end.

(** [s[:-k]] for [0 < k]: all but the last [k] characters. *)
Definition drop_last (k : nat) (s : string) : string :=
  take (String.length s - k) s.

(** [s.strip()]: whitespace removed at both ends. *)
Fixpoint lstrip (s : string) : string :=
  match s with
  | EmptyString => EmptyString
  | String c s' => if Char.is_space c then lstrip s' else s
  end.

Fixpoint rstrip (s : string) : string :=
  match s with
  | EmptyString => EmptyString
  | String c s' =>
      let r := rstrip s' in
      if Char.is_space c && is_empty r then EmptyString else String c r
  end.

Definition strip (s : string) : string := rstrip (lstrip s).

(** [re.sub] with the empty replacement: every character of the class is
    deleted. *)
Fixpoint remove (cls : ascii -> bool) (s : string) : string :=
  match s with
  | EmptyString => EmptyString
  | String c s' => if cls c then remove cls s' else String c (remove cls s')
  end.

(** [re.sub] with a space as replacement: every character of the class
    becomes a space. *)
Definition blank (cls : ascii -> bool) (s : string) : string :=
  map (fun c => if cls c then " "%char else c) s.

(** [re.sub(r'\s+', ' ', s)]: each maximal run of whitespace becomes one
    space.  [in_run] tells that the previous character was whitespace,
    whose run has already produced its space. *)
Fixpoint collapse_from (in_run : bool) (s : string) : string :=
  match s with
  | EmptyString => EmptyString
  | String c s' =>
      if Char.is_space c
      then if in_run then collapse_from true s'
           else String " " (collapse_from true s')
      else String c (collapse_from false s')
  end.

Definition collapse_ws (s : string) : string := collapse_from false s.

(** [s.isupper()]: no lower-case character and at least one upper-case
    character. *)
Definition isupper (s : string) : bool :=
  negb (any Char.is_lower s) && any Char.is_upper s.

(** [s.title()]: a cased character is upper-cased when the character
    before it is not cased (or there is none) and lower-cased otherwise. *)
Definition recase (prev_cased : bool) (c : ascii) : ascii :=
  if prev_cased then Char.to_lower c else Char.to_upper c.

Fixpoint title_from (prev_cased : bool) (s : string) : string :=
  match s with
  | EmptyString => EmptyString
  | String c s' => String (recase prev_cased c) (title_from (Char.is_cased c) s')
  end.

Definition title (s : string) : string := title_from false s.

End Str.

(** ** The keyword tables *)

(** Threshold for info confidence.  The literal is the binary64 float
    nearest to nine tenths, as in Python. *)
#[warning="-inexact-float"]
Definition CONFIDENCE_THRESHOLD : float := 0.9%float.

Definition TRUCK_KEYWORDS : list string :=
  [ (* Core freight and logistics *)
    "truck"; "trucks"; "trucking"; "trailer"; "trailers";
    "freight"; "logistics"; "transport"; "transportation"; "ltl";
    (* Heavy-duty construction and related services *)
    "hauling"; "haul"; "excavation"; "excavating";
    "construction"; "grading"; "sitework"; "aggregates";
    "paving"; "asphalt"; "concrete";
    (* Fleet maintenance / repair services *)
    "diesel"; "repair"; "tow"; "towing"; "tows";
    (* Commercial rental and equipment providers *)
    "equipment"; "rental" ].

Definition EXCLUDE_KEYWORDS : list string :=
  [ (* Residential & consumer services *)
    "accessories"; "apartment"; "bank"; "budget"; "car"; "care";
    "cellphone"; "cellphones";
    "cleaners"; "cleaning"; "furniture"; "homes"; "home"; "hospital"; "ice";
    "jewelry"; "luxury"; "mattress"; "moving"; "party"; "phone"; "phones";
    "piano";
    "pianos"; "plumber"; "restaurant"; "rug"; "rugs"; "rv"; "salon"; "school";
    "shoe"; "shoes"; "storage"; "vacation"; "watch"; "watches";
    (* Musical instrument / non-fleet commercial *)
    "eyeglass"; "eyeglasses"; "woodwind"; "woodwinds";
    (* Auto/consumer repair & parts chains *)
    "advance"; "auto"; "autozone"; "automotive"; "body"; "collision";
    "computer";
    "detailing"; "firestone"; "ford"; "glass"; "mazda"; "medical"; "motor";
    "motors";
    "napa"; "oreilly"; "penske"; "shop"; "tire"; "tools"; "toyota"; "wash";
    (* Local and non-commercial government *)
    "church"; "city of"; "county"; "department"; "park"; "town"; "town of";
    "township";
    "tower"; "towne";
    (* Generic consultants / irrelevant businesses *)
    "consultants"; "credit"; "dream"; "electrician"; "emissions"; "event";
    "handyman";
    "hvac"; "pc"; "training"; "wireless";
    (* High-volume brand noise *)
    "fedex"; "harbor"; "saia" ].

(** ** [is_truck_relevant] *)

(** The argument is [None] when the Python value is not a [str]. *)
Definition is_truck_relevant (name : option string) : bool :=
  match name with
  | None => false
  | Some name =>
      if Str.is_empty name then false
      else
        let name_lower := Str.lower name in
        (* Quick exclusion check *)
        if existsb (fun exclude => Str.contains exclude name_lower)
                   EXCLUDE_KEYWORDS
        then false
        else
          (* Check for truck keywords *)
          existsb (fun keyword => Str.contains keyword name_lower)
                  TRUCK_KEYWORDS
  end.

(** ** Exceptions *)

Inductive exn : Type :=
| KeyError (key : string)
| ValueError (msg : string)
| TypeError (msg : string)
| IndexError (msg : string).

Inductive result (A : Type) : Type :=
| Ok (a : A)
| Raise (e : exn).

Arguments Ok {A} a.
Arguments Raise {A} e.

Definition bind {A B : Type} (r : result A) (k : A -> result B) : result B :=
  match r with
  | Ok a => k a
  | Raise e => Raise e
  end.

Declare Scope result_scope.
Delimit Scope result_scope with result.
Notation "x <- r ;; k" := (bind r (fun x => k))
  (at level 61, r at next level, right associativity) : result_scope.
Local Open Scope result_scope.

(** A [for] loop (or [Series.apply]) whose body appends one value per
    element and may raise: the first exception ends the loop. *)
Fixpoint for_each {A B : Type} (body : A -> result B) (xs : list A)
  : result (list B) :=
  match xs with
  | [] => Ok []
  | x :: xs' =>
      y <- body x ;;
      ys <- for_each body xs' ;;
      Ok (y :: ys)
  end.

(** [range(0, stop, step)], which raises when the step is zero.  At most
    [stop] values are below [stop], so [stop] bounds the recursion. *)
Fixpoint range_from (fuel start stop step : nat) : list nat :=
  match fuel with
  | 0 => []
  | S fuel' =>
      if start <? stop
      then start :: range_from fuel' (start + step) stop step
      else []
  end.

Definition py_range (stop step : nat) : result (list nat) :=
  match step with
  | 0 => Raise (ValueError "range() arg 3 must not be zero")
  | S _ => Ok (range_from stop 0 stop step)
  end.

(** ** The data frame *)

(** An address is a dictionary; only its [country] key is read, and it is
    [None] when the dictionary has no such key. *)
Record Address : Type := { country : option string }.

(** A cell of the [addresses] column: a sequence of addresses, or one of
    the two missing values of pandas, [None] and the float NaN. *)
Inductive addresses_cell : Type :=
| AddrSeq (l : list Address)
| AddrNone
| AddrNaN.

Record BusinessRecord : Type :=
  { business_name : option string;
    confidence : float;
    addresses : addresses_cell }.

(** A frame is its column labels and its rows in order.  A field of a row
    is read only through [column], which raises when the frame does not
    carry the label. *)
Record DataFrame : Type :=
  { columns : list string;
    rows : list BusinessRecord }.

Definition len (df : DataFrame) : nat := length (rows df).

(** [label in df.columns]. *)
Definition has_column (label : string) (df : DataFrame) : bool :=
  existsb (String.eqb label) (columns df).

(** [df[label]]. *)
Definition column {A : Type} (label : string) (field : BusinessRecord -> A)
    (df : DataFrame) : result (list A) :=
  if has_column label df then Ok (map field (rows df))
  else Raise (KeyError label).

(** [df.iloc[start:stop]]. *)
Definition iloc (start stop : nat) (df : DataFrame) : DataFrame :=
  {| columns := columns df;
     rows := firstn (stop - start) (skipn start (rows df)) |}.

(** [df[mask]] for a boolean mask that carries the index of [df]. *)
Fixpoint select_rows {A : Type} (l : list A) (mask : list bool) : list A :=
  match l, mask with
  | x :: l', b :: mask' =>
      if b then x :: select_rows l' mask' else select_rows l' mask'
  | _, _ => []
  end.

Definition select (df : DataFrame) (mask : list bool) : DataFrame :=
  {| columns := columns df; rows := select_rows (rows df) mask |}.

(** [pd.concat(parts)] on a list of series: it raises on the empty list. *)
Definition pd_concat {A : Type} (parts : list (list A)) : result (list A) :=
  match parts with
  | [] => Raise (ValueError "No objects to concatenate")
  | _ :: _ => Ok (concat parts)
  end.

(** [pd.concat(parts, ignore_index=True)] on a list of frames that share
    their columns. *)
Definition pd_concat_frames (parts : list DataFrame) : result DataFrame :=
  match parts with
  | [] => Raise (ValueError "No objects to concatenate")
  | first :: _ =>
      Ok {| columns := columns first; rows := concat (map rows parts) |}
  end.

(** [chunk[business_name] = values]. *)
Definition with_name (r : BusinessRecord) (name : option string)
  : BusinessRecord :=
  {| business_name := name;
     confidence := confidence r;
     addresses := addresses r |}.

Fixpoint assign_names (l : list BusinessRecord) (values : list (option string))
  : list BusinessRecord :=
  match l, values with
  | r :: l', v :: values' => with_name r v :: assign_names l' values'
  | _, _ => []
  end.

Definition set_business_name (df : DataFrame) (values : list (option string))
  : DataFrame :=
  {| columns := columns df; rows := assign_names (rows df) values |}.

(** ** [filter_truck_businesses] *)

(** The mask of the confidence stage: [df[confidence] >= CONFIDENCE_THRESHOLD]. *)
Definition confident (c : float) : bool := PrimFloat.leb CONFIDENCE_THRESHOLD c.

(** The loop over chunks that checks the business names. *)
Definition relevance_stage (chunk_size : nat) (df : DataFrame)
  : result DataFrame :=
  starts <- py_range (len df) chunk_size ;;
  mask_parts <-
    for_each (fun start =>
      let stop := Nat.min (start + chunk_size) (len df) in
      let chunk := iloc start stop df in
      names <- column "business_name" business_name chunk ;;
      Ok (map is_truck_relevant names)) starts ;;
  mask <- pd_concat mask_parts ;;
  Ok (select df mask).

(** Truth value of a cell: an empty sequence and [None] are false, NaN is
    a non-zero float and so is true. *)
Definition truthy (x : addresses_cell) : bool :=
  match x with
  | AddrSeq [] => false
  | AddrSeq (_ :: _) => true
  | AddrNone => false
  | AddrNaN => true
  end.

(** [x[0]]. *)
Definition first_address (x : addresses_cell) : result Address :=
  match x with
  | AddrSeq (a :: _) => Ok a
  | AddrSeq [] => Raise (IndexError "list index out of range")
  | AddrNone => Raise (TypeError "'NoneType' object is not subscriptable")
  | AddrNaN => Raise (TypeError "'float' object is not subscriptable")
  end.

(** [a[country]]. *)
Definition get_country (a : Address) : result string :=
  match country a with
  | Some c => Ok c
  | None => Raise (KeyError "country")
  end.

(** The lambda of the country stage. *)
Definition is_us (x : addresses_cell) : result bool :=
  if truthy x
  then
    a <- first_address x ;;
    c <- get_country a ;;
    Ok (String.eqb c "US")
  else Ok true.

(** The loop over chunks that checks the addresses. *)
Definition country_stage (chunk_size : nat) (df : DataFrame)
  : result DataFrame :=
  starts <- py_range (len df) chunk_size ;;
  us_mask_parts <-
    for_each (fun start =>
      let stop := Nat.min (start + chunk_size) (len df) in
      let chunk := iloc start stop df in
      cells <- column "addresses" addresses chunk ;;
      for_each is_us cells) starts ;;
  us_mask <- pd_concat us_mask_parts ;;
  Ok (select df us_mask).

(** The function with its two chunk sizes as arguments. *)
Definition filter_truck_businesses_with (relevance_chunk country_chunk : nat)
    (df : DataFrame) : result DataFrame :=
  (* Confidence threshold - do this first to reduce dataset size *)
  conf <- column "confidence" confidence df ;;
  let df := select df (map confident conf) in
  (* Filter by business name, in chunks *)
  df <- relevance_stage relevance_chunk df ;;
  (* Filter out Canadian businesses *)
  if has_column "addresses" df && (0 <? len df)
  then country_stage country_chunk df
  else Ok df.

Definition filter_truck_businesses : DataFrame -> result DataFrame :=
  filter_truck_businesses_with 10000 5000.

(** ** [clean_name] and [clean_business_names] *)

Definition clean_text (name : string) : string :=
  (* Basic cleaning *)
  let name := Str.remove Char.is_quote name in   (* Remove quotes *)
  let name := Str.collapse_ws name in            (* Normalize whitespace *)
  let name := Str.strip name in
  (* Title case unless already uppercase *)
  if Str.isupper name then name else Str.title name.

Definition clean_name (name : option string) : option string :=
  match name with
  | None => None
  | Some name => Some (clean_text name)
  end.

(** [df[business_name].notna() & (df[business_name] != empty)]. *)
Definition has_name (name : option string) : bool :=
  match name with
  | None => false
  | Some s => negb (Str.is_empty s)
  end.

Definition clean_business_names_with (chunk_size : nat) (df : DataFrame)
  : result DataFrame :=
  starts <- py_range (len df) chunk_size ;;
  cleaned_parts <-
    for_each (fun start =>
      let stop := Nat.min (start + chunk_size) (len df) in
      let chunk := iloc start stop df in
      names <- column "business_name" business_name chunk ;;
      Ok (set_business_name chunk (map clean_name names))) starts ;;
  (* Combine chunks *)
  df <- pd_concat_frames cleaned_parts ;;
  (* Remove empty names *)
  names <- column "business_name" business_name df ;;
  Ok (select df (map has_name names)).

Definition clean_business_names : DataFrame -> result DataFrame :=
  clean_business_names_with 10000.

(** The full pipeline: the filter followed by the cleaning. *)
Definition filter_then_clean (df : DataFrame) : result DataFrame :=
  df <- filter_truck_businesses df ;;
  clean_business_names df.

(** ** [normalize_for_matching] *)

(** Common suffixes to remove. *)
Definition SUFFIXES : list string := [" llc"; " inc"; " corp"; " ltd"; " co"].

(** One turn of the loop over the suffixes. *)
Definition strip_suffix (name suffix : string) : string :=
  if Str.endswith name suffix
  then Str.drop_last (String.length suffix) name
  else name.

(** The whole loop: every suffix is tried in turn on the current name. *)
Definition strip_suffixes (name : string) : string :=
  fold_left strip_suffix SUFFIXES name.

(** The argument is [None] for the Python value [None]. *)
Definition normalize_for_matching (name : option string) : string :=
  match name with
  | None => ""
  | Some name =>
      if Str.is_empty name then ""
      else
        (* Lowercase and remove business suffixes *)
        let name := Str.strip (Str.lower name) in
        let name := strip_suffixes name in
        (* Remove punctuation and normalize whitespace *)
        let name :=
          Str.blank (fun c => negb (Char.is_word c || Char.is_space c)) name in
        Str.strip (Str.collapse_ws name)
  end.

(** ** Reference definitions

    The single non-chunked pass that each chunked stage is compared
    with, and the suffix removal in the words of the specification. *)

Definition relevance_single_pass (df : DataFrame) : result DataFrame :=
  names <- column "business_name" business_name df ;;
  Ok (select df (map is_truck_relevant names)).

Definition country_single_pass (df : DataFrame) : result DataFrame :=
  cells <- column "addresses" addresses df ;;
  us_mask <- for_each is_us cells ;;
  Ok (select df us_mask).

Definition clean_single_pass (df : DataFrame) : result DataFrame :=
  names <- column "business_name" business_name df ;;
  let df := set_business_name df (map clean_name names) in
  names <- column "business_name" business_name df ;;
  Ok (select df (map has_name names)).

(** Strip exactly one trailing occurrence of a known suffix, if the name
    ends with one. *)
Definition strip_one_suffix (name : string) : string :=
  match find (Str.endswith name) SUFFIXES with
  | Some suffix => Str.drop_last (String.length suffix) name
  | None => name
  end.

(** Normal form of the whitespace substitution: every whitespace
    character is a space and no two are adjacent.  [in_run] tells that the
    character before the string is whitespace. *)
Fixpoint collapsed_from (in_run : bool) (s : string) : bool :=
  match s with
  | EmptyString => true
  | String c s' =>
      if Char.is_space c
      then negb in_run && Ascii.eqb c " " && collapsed_from true s'
      else collapsed_from false s'
  end.

(** The text carries no quote character. *)
Definition quote_free (s : string) : bool :=
  Str.all (fun c => negb (Char.is_quote c)) s.

(** The three substitutions of [clean_name], before the choice of case. *)
Definition basic_cleaning (name : string) : string :=
  Str.strip (Str.collapse_ws (Str.remove Char.is_quote name)).

(** A text on which the three substitutions do nothing. *)
Definition cleaned (s : string) : Prop :=
  quote_free s = true /\ collapsed_from false s = true /\ Str.strip s = s.

(** The rows of the chunk that starts at [start]: what
    [df.iloc[start:min(start + chunk_size, len(df))]] holds. *)
Definition chunk_rows {A : Type} (chunk_size : nat) (l : list A) (start : nat)
  : list A :=
  firstn (Nat.min (start + chunk_size) (length l) - start) (skipn start l).

(** The row that [clean_business_names] writes for a row. *)
Definition clean_row (r : BusinessRecord) : BusinessRecord :=
  with_name r (clean_name (business_name r)).

(** What the lambda of the country stage answers on a cell it can read:
    an empty sequence and [None] pass, a sequence passes when its first
    address is in the US. *)
Definition passes_country (x : addresses_cell) : bool :=
  match x with
  | AddrSeq (a :: _) =>
      match country a with
      | Some c => String.eqb c "US"
      | None => false
      end
  | _ => true
  end.

(** A cell that the lambda can read: not NaN, and the first address, when
    there is one, carries a country. *)
Definition readable (x : addresses_cell) : bool :=
  match x with
  | AddrSeq (a :: _) =>
      match country a with Some _ => true | None => false end
  | AddrSeq [] => true
  | AddrNone => true
  | AddrNaN => false
  end.

(** [l1] is [l2] with some elements left out, the order kept. *)
Inductive subseq {A : Type} : list A -> list A -> Prop :=
| subseq_nil : subseq [] []
| subseq_skip (x : A) (l1 l2 : list A) : subseq l1 l2 -> subseq l1 (x :: l2)
| subseq_take (x : A) (l1 l2 : list A) : subseq l1 l2 -> subseq (x :: l1) (x :: l2).

(** The strings of a list written one after the other. *)
Definition join (l : list string) : string := fold_right String.append "" l.

(** A keyword of the table occurs in the lowercased name. *)
Definition matches_any (keywords : list string) (name_lower : string) : Prop :=
  exists keyword, In keyword keywords /\ Str.contains keyword name_lower = true.

(** The test that a row passes in [filter_truck_businesses]: the
    confidence mask, the relevance mask and, when the frame carries
    addresses, the country mask. *)
Definition kept (with_addresses : bool) (r : BusinessRecord) : bool :=
  confident (confidence r)
  && is_truck_relevant (business_name r)
  && (if with_addresses then passes_country (addresses r) else true).

(** A character of a matching key: a word character that is not upper
    case, or the space. *)
Definition key_char (c : ascii) : bool :=
  (Char.is_word c && negb (Char.is_upper c)) || Ascii.eqb c " ".

(** ** Text beyond ASCII

    A Python [str] as the list of its code points.  The tables of
    [str.isupper], [str.islower], [str.isspace], [str.lower], [str.upper]
    and [str.title] are filled in for the ASCII range and for U+0085 (next
    line), U+00A0 (no-break space), U+00DF (sharp s), U+0130 (capital I
    with dot above), U+017F (long s) and U+0307 (combining dot above);
    other code points are not modelled.  A case mapping gives a list,
    since Python maps one character to several: the upper case of U+00DF
    is SS, the lower case of U+0130 is i followed by U+0307. *)

(** Every character of the text is in the ASCII range. *)
Definition is_ascii (s : string) : bool :=
  Str.all (fun c => (Char.code c <? 128)%N) s.

(** Every name of the frame that is text is ASCII text. *)
Definition ascii_names (df : DataFrame) : Prop :=
  Forall (fun r => match business_name r with
                   | Some s => is_ascii s = true
                   | None => True
                   end) (rows df).

Module Uni.

Definition str : Type := list N.

(** The code points of a literal. *)
Definition of_string (s : string) : str :=
  map N_of_ascii (list_ascii_of_string s).

Definition between (lo hi c : N) : bool := ((lo <=? c) && (c <=? hi))%N.

Definition is_upper (c : N) : bool :=
  (between 65 90 c || (c =? 304))%N.

Definition is_lower (c : N) : bool :=
  (between 97 122 c || (c =? 223) || (c =? 383))%N.

Definition is_cased (c : N) : bool := is_upper c || is_lower c.

Definition is_space (c : N) : bool :=
  (between 9 13 c || between 28 31 c || (c =? 32) || (c =? 133) || (c =? 160))%N.

Definition is_quote (c : N) : bool := ((c =? 34) || (c =? 39))%N.

Definition lower_full (c : N) : list N :=
  if between 65 90 c then [c + 32]%N
  else if (c =? 304)%N then [105; 775]%N
  else [c].

Definition upper_full (c : N) : list N :=
  if between 97 122 c then [c - 32]%N
  else if (c =? 223)%N then [83; 83]%N
  else if (c =? 383)%N then [83]%N
  else [c].

Definition title_full (c : N) : list N :=
  if between 97 122 c then [c - 32]%N
  else if (c =? 223)%N then [83; 115]%N
  else if (c =? 383)%N then [83]%N
  else [c].

(** [s.lower()] and [s.upper()]. *)
Definition lower (s : str) : str := flat_map lower_full s.
Definition upper (s : str) : str := flat_map upper_full s.

Fixpoint prefix (sub s : str) : bool :=
  match sub, s with
  | [], _ => true
  | _ :: _, [] => false
  | a :: sub', b :: s' => (a =? b)%N && prefix sub' s'
  end.

(** [sub in s]. *)
Fixpoint contains (sub s : str) : bool :=
  prefix sub s
  || match s with
     | [] => false
     | _ :: s' => contains sub s'
     end.

Definition is_empty (s : str) : bool :=
  match s with [] => true | _ :: _ => false end.

(** [re.sub] with the empty replacement. *)
Definition remove (cls : N -> bool) (s : str) : str :=
  filter (fun c => negb (cls c)) s.

(** [re.sub] of the whitespace runs by one space. *)
Fixpoint collapse_from (in_run : bool) (s : str) : str :=
  match s with
  | [] => []
  | c :: s' =>
      if is_space c
      then if in_run then collapse_from true s'
           else 32%N :: collapse_from true s'
      else c :: collapse_from false s'
  end.

Definition collapse_ws (s : str) : str := collapse_from false s.

Fixpoint lstrip (s : str) : str :=
  match s with
  | [] => []
  | c :: s' => if is_space c then lstrip s' else s
  end.

Fixpoint rstrip (s : str) : str :=
  match s with
  | [] => []
  | c :: s' =>
      let r := rstrip s' in
      if is_space c && is_empty r then [] else c :: r
  end.

Definition strip (s : str) : str := rstrip (lstrip s).

(** [s.isupper()]. *)
Definition isupper (s : str) : bool :=
  negb (existsb is_lower s) && existsb is_upper s.

(** [s.title()]: the title case of a character that follows no cased
    character, the lower case of a character that follows one; whether a
    character is cased is asked of the character of the text, not of what
    was written for it. *)
Fixpoint title_from (prev_cased : bool) (s : str) : str :=
  match s with
  | [] => []
  | c :: s' =>
      (if prev_cased then lower_full c else title_full c)
      ++ title_from (is_cased c) s'
  end.

Definition title (s : str) : str := title_from false s.

Definition is_truck_relevant (name : option str) : bool :=
  match name with
  | None => false
  | Some name =>
      if is_empty name then false
      else
        let name_lower := lower name in
        (* Quick exclusion check *)
        if existsb (fun exclude => contains (of_string exclude) name_lower)
                   EXCLUDE_KEYWORDS
        then false
        else
          (* Check for truck keywords *)
          existsb (fun keyword => contains (of_string keyword) name_lower)
                  TRUCK_KEYWORDS
  end.

Definition clean_text (name : str) : str :=
  (* Basic cleaning *)
  let name := remove is_quote name in   (* Remove quotes *)
  let name := collapse_ws name in       (* Normalize whitespace *)
  let name := strip name in
  (* Title case unless already uppercase *)
  if isupper name then name else title name.

Definition clean_name (name : option str) : option str :=
  match name with
  | None => None
  | Some name => Some (clean_text name)
  end.

End Uni.

(** The name long s, a, i, a, space, truck, and the name a, capital I
    with dot above, a. *)
Definition long_s_saia_truck : Uni.str := 383%N :: Uni.of_string "aia truck".
Definition a_dotted_I_a : Uni.str := [97; 304; 97]%N.

(** ** Example frames *)

Definition all_columns : list string :=
  ["business_name"; "confidence"; "addresses"].

Definition no_rows : DataFrame := {| columns := all_columns; rows := [] |}.

#[warning="-inexact-float"]
Definition smith_freight : BusinessRecord :=
  {| business_name := Some "Smith Freight Co";
     confidence := 0.5;
     addresses := AddrSeq [] |}.

#[warning="-inexact-float"]
Definition nameless : BusinessRecord :=
  {| business_name := None;
     confidence := 0.95;
     addresses := AddrSeq [ {| country := Some "US" |} ] |}.

#[warning="-inexact-float"]
Definition abc_trucking (x : addresses_cell) : BusinessRecord :=
  {| business_name := Some "ABC Trucking LLC";
     confidence := 0.95;
     addresses := x |}.

#[warning="-inexact-float"]
Definition northern_hauling : BusinessRecord :=
  {| business_name := Some "Northern Hauling Ltd";
     confidence := 0.99;
     addresses := AddrSeq [ {| country := Some "CA" |} ] |}.

#[warning="-inexact-float"]
Definition discount_towing : BusinessRecord :=
  {| business_name := Some "  Discount   Towing  ";
     confidence := 0.91;
     addresses := AddrSeq [] |}.

#[warning="-inexact-float"]
Definition unnamed_towing : BusinessRecord :=
  {| business_name := Some "";
     confidence := 0.95;
     addresses := AddrSeq [] |}.

Definition frame (l : list BusinessRecord) : DataFrame :=
  {| columns := all_columns; rows := l |}.

(** * Properties *)

(** ** Characters and strings *)

Ltac char_cases c :=
  let b0 := fresh "b" in let b1 := fresh "b" in let b2 := fresh "b" in
  let b3 := fresh "b" in let b4 := fresh "b" in let b5 := fresh "b" in
  let b6 := fresh "b" in let b7 := fresh "b" in
  destruct c as [b0 b1 b2 b3 b4 b5 b6 b7];
  destruct b0, b1, b2, b3, b4, b5, b6, b7; vm_compute; reflexivity.

Module CharFacts.
Import Char.

Lemma to_lower_to_upper c : to_lower (to_upper c) = to_lower c.
Proof. char_cases c. Qed.

Lemma to_lower_idem c : to_lower (to_lower c) = to_lower c.
Proof. char_cases c. Qed.

Lemma to_upper_idem c : to_upper (to_upper c) = to_upper c.
Proof. char_cases c. Qed.

Lemma is_cased_to_lower c : is_cased (to_lower c) = is_cased c.
Proof. char_cases c. Qed.

Lemma is_cased_to_upper c : is_cased (to_upper c) = is_cased c.
Proof. char_cases c. Qed.

Lemma is_space_to_lower c : is_space (to_lower c) = is_space c.
Proof. char_cases c. Qed.

Lemma is_space_to_upper c : is_space (to_upper c) = is_space c.
Proof. char_cases c. Qed.

Lemma is_quote_to_lower c : is_quote (to_lower c) = is_quote c.
Proof. char_cases c. Qed.

Lemma is_quote_to_upper c : is_quote (to_upper c) = is_quote c.
Proof. char_cases c. Qed.

Lemma space_to_lower c : is_space c = true -> to_lower c = c.
Proof.
  intro H. unfold to_lower.
  destruct (is_upper c) eqn:E; [|reflexivity].
  exfalso. revert H E. clear.
  destruct c as [b0 b1 b2 b3 b4 b5 b6 b7];
    destruct b0, b1, b2, b3, b4, b5, b6, b7; vm_compute; congruence.
Qed.

Lemma space_to_upper c : is_space c = true -> to_upper c = c.
Proof.
  intro H. unfold to_upper.
  destruct (is_lower c) eqn:E; [|reflexivity].
  exfalso. revert H E. clear.
  destruct c as [b0 b1 b2 b3 b4 b5 b6 b7];
    destruct b0, b1, b2, b3, b4, b5, b6, b7; vm_compute; congruence.
Qed.

End CharFacts.

Module StrFacts.
Import Str.

Lemma map_map f g s : map f (map g s) = map (fun c => f (g c)) s.
Proof. induction s as [|c s IH]; simpl; [reflexivity | now rewrite IH]. Qed.

Lemma map_ext f g s : (forall c, f c = g c) -> map f s = map g s.
Proof.
  intro H. induction s as [|c s IH]; simpl; [reflexivity | now rewrite H, IH].
Qed.

Lemma is_empty_map f s : is_empty (map f s) = is_empty s.
Proof. now destruct s. Qed.

Lemma lower_upper s : lower (upper s) = lower s.
Proof.
  unfold lower, upper. rewrite map_map.
  apply map_ext, CharFacts.to_lower_to_upper.
Qed.

Lemma lower_lower s : lower (lower s) = lower s.
Proof.
  unfold lower. rewrite map_map. apply map_ext, CharFacts.to_lower_idem.
Qed.

(** Only the empty keyword occurs in the empty string. *)
Lemma contains_empty sub : contains sub EmptyString = is_empty sub.
Proof. destruct sub; reflexivity. Qed.

End StrFacts.

(** ** The relevance classifier *)

Lemma existsb_matches_any keywords name_lower :
  existsb (fun keyword => Str.contains keyword name_lower) keywords = true
  <-> matches_any keywords name_lower.
Proof. unfold matches_any. apply existsb_exists. Qed.

Lemma truck_keywords_nonempty :
  existsb Str.is_empty TRUCK_KEYWORDS = false.
Proof. reflexivity. Qed.

Lemma is_truck_relevant_unfold (name : string) :
  is_truck_relevant (Some name)
  = negb (Str.is_empty name)
    && negb (existsb (fun ex => Str.contains ex (Str.lower name)) EXCLUDE_KEYWORDS)
    && existsb (fun kw => Str.contains kw (Str.lower name)) TRUCK_KEYWORDS.
Proof.
  unfold is_truck_relevant.
  destruct (Str.is_empty name); [reflexivity|].
  now destruct (existsb _ EXCLUDE_KEYWORDS).
Qed.

(** An inclusion keyword never matches the empty name. *)
Lemma truck_keyword_match_nonempty (name : string) :
  matches_any TRUCK_KEYWORDS (Str.lower name) -> Str.is_empty name = false.
Proof.
  intros (kw & Hin & Hc).
  destruct name as [|c name]; [|reflexivity].
  change (Str.lower EmptyString) with EmptyString in Hc.
  rewrite StrFacts.contains_empty in Hc.
  assert (H : existsb Str.is_empty TRUCK_KEYWORDS = true)
    by (apply existsb_exists; eauto).
  rewrite truck_keywords_nonempty in H. discriminate.
Qed.

(** C1: when an exclusion keyword occurs in the lowercased name,
    [is_truck_relevant] returns false, whatever inclusion keywords occur
    as well; it returns true exactly when no exclusion keyword occurs and
    some inclusion keyword does. *)
Theorem is_truck_relevant_exclusion_first (name : string) :
  (matches_any EXCLUDE_KEYWORDS (Str.lower name) ->
   is_truck_relevant (Some name) = false)
  /\ (is_truck_relevant (Some name) = true <->
      ~ matches_any EXCLUDE_KEYWORDS (Str.lower name)
      /\ matches_any TRUCK_KEYWORDS (Str.lower name)).
Proof.
  rewrite is_truck_relevant_unfold.
  split.
  - intro H. apply existsb_matches_any in H. rewrite H.
    now rewrite andb_false_r.
  - rewrite !andb_true_iff, !negb_true_iff, existsb_matches_any.
    split.
    + intros [[_ Hex] Hin]. split; [|assumption].
      intro H. apply existsb_matches_any in H. congruence.
    + intros [Hex Hin]. repeat split.
      * now apply truck_keyword_match_nonempty.
      * apply not_true_is_false. intro H. now apply Hex, existsb_matches_any.
      * assumption.
Qed.

(** A name with the exclusion keyword auto and the inclusion keyword
    repair. *)
Lemma is_truck_relevant_exclusion_first_witness :
  matches_any EXCLUDE_KEYWORDS (Str.lower "Joe's Auto Repair")
  /\ matches_any TRUCK_KEYWORDS (Str.lower "Joe's Auto Repair")
  /\ is_truck_relevant (Some "Joe's Auto Repair") = false.
Proof.
  assert (Hex : matches_any EXCLUDE_KEYWORDS (Str.lower "Joe's Auto Repair")).
  { exists "auto". split; [|reflexivity]. simpl. tauto. }
  split; [exact Hex|]. split.
  - exists "repair". split; [|reflexivity]. simpl. tauto.
  - exact (proj1 (is_truck_relevant_exclusion_first "Joe's Auto Repair") Hex).
Defined.

(** ** Name cleaning *)

Module CleanFacts.
Import Str.

Lemma space_not_cased c : Char.is_space c = true -> Char.is_cased c = false.
Proof.
  destruct c as [b0 b1 b2 b3 b4 b5 b6 b7];
    destruct b0, b1, b2, b3, b4, b5, b6, b7; vm_compute; congruence.
Qed.

#[local] Arguments recase : simpl never.

Lemma is_space_recase b c : Char.is_space (recase b c) = Char.is_space c.
Proof.
  destruct b; [apply CharFacts.is_space_to_lower | apply CharFacts.is_space_to_upper].
Qed.

Lemma is_quote_recase b c : Char.is_quote (recase b c) = Char.is_quote c.
Proof.
  destruct b; [apply CharFacts.is_quote_to_lower | apply CharFacts.is_quote_to_upper].
Qed.

Lemma is_cased_recase b c : Char.is_cased (recase b c) = Char.is_cased c.
Proof.
  destruct b; [apply CharFacts.is_cased_to_lower | apply CharFacts.is_cased_to_upper].
Qed.

Lemma recase_space b c : Char.is_space c = true -> recase b c = c.
Proof.
  destruct b; [apply CharFacts.space_to_lower | apply CharFacts.space_to_upper].
Qed.

Lemma recase_idem b c : recase b (recase b c) = recase b c.
Proof.
  destruct b; [apply CharFacts.to_lower_idem | apply CharFacts.to_upper_idem].
Qed.

Lemma title_from_cons b c s :
  title_from b (String c s) = String (recase b c) (title_from (Char.is_cased c) s).
Proof. reflexivity. Qed.

Lemma is_empty_title b s : is_empty (title_from b s) = is_empty s.
Proof. now destruct s. Qed.

(** *** Quotes *)

Lemma quote_free_remove s : quote_free (remove Char.is_quote s) = true.
Proof.
  unfold quote_free.
  induction s as [|c s IH]; simpl; [reflexivity|].
  destruct (Char.is_quote c) eqn:E; simpl; [assumption|].
  now rewrite E.
Qed.

Lemma remove_quote_free s :
  quote_free s = true -> remove Char.is_quote s = s.
Proof.
  unfold quote_free.
  induction s as [|c s IH]; simpl; [reflexivity|].
  rewrite andb_true_iff, negb_true_iff. intros [E H].
  now rewrite E, IH.
Qed.

Lemma quote_free_collapse r s :
  quote_free s = true -> quote_free (collapse_from r s) = true.
Proof.
  unfold quote_free. revert r.
  induction s as [|c s IH]; intro r; simpl; [reflexivity|].
  rewrite andb_true_iff. intros [E H].
  destruct (Char.is_space c); [destruct r|]; simpl; auto.
  now rewrite E, IH.
Qed.

Lemma quote_free_lstrip s :
  quote_free s = true -> quote_free (lstrip s) = true.
Proof.
  unfold quote_free.
  induction s as [|c s IH]; simpl; [reflexivity|].
  destruct (Char.is_space c); simpl; [|easy].
  rewrite andb_true_iff. intros [_ H]. auto.
Qed.

Lemma quote_free_rstrip s :
  quote_free s = true -> quote_free (rstrip s) = true.
Proof.
  unfold quote_free.
  induction s as [|c s IH]; simpl; [reflexivity|].
  rewrite andb_true_iff. intros [E H].
  destruct (Char.is_space c && is_empty (rstrip s)); simpl; [reflexivity|].
  now rewrite E, IH.
Qed.

Lemma quote_free_title b s :
  quote_free (title_from b s) = quote_free s.
Proof.
  unfold quote_free. revert b.
  induction s as [|c s IH]; intro b; [reflexivity|].
  rewrite title_from_cons. simpl.
  now rewrite is_quote_recase, IH.
Qed.

(** *** Whitespace runs *)

Lemma collapsed_collapse r s : collapsed_from r (collapse_from r s) = true.
Proof.
  revert r. induction s as [|c s IH]; intro r; simpl; [reflexivity|].
  destruct (Char.is_space c) eqn:E.
  - destruct r; simpl; [apply IH | apply IH].
  - simpl. rewrite E. apply IH.
Qed.

Lemma collapse_collapsed r s :
  collapsed_from r s = true -> collapse_from r s = s.
Proof.
  revert r. induction s as [|c s IH]; intro r; simpl; [reflexivity|].
  destruct (Char.is_space c).
  - rewrite !andb_true_iff, negb_true_iff. intros [[Hr Hc] H].
    apply Ascii.eqb_eq in Hc. subst r c. now rewrite IH.
  - intro H. now rewrite IH.
Qed.

Lemma collapsed_lstrip r s :
  collapsed_from r s = true -> collapsed_from false (lstrip s) = true.
Proof.
  revert r. induction s as [|c s IH]; intro r; simpl; [reflexivity|].
  destruct (Char.is_space c) eqn:E.
  - rewrite !andb_true_iff. intros [_ H]. eauto.
  - intro H. simpl. now rewrite E.
Qed.

Lemma collapsed_rstrip r s :
  collapsed_from r s = true -> collapsed_from r (rstrip s) = true.
Proof.
  revert r. induction s as [|c s IH]; intro r; simpl; [reflexivity|].
  destruct (Char.is_space c) eqn:E; simpl.
  - rewrite !andb_true_iff. intros [Hc H].
    destruct (is_empty (rstrip s)); simpl; [reflexivity|].
    rewrite E, !andb_true_iff. auto.
  - intro H. rewrite E. auto.
Qed.

Lemma collapsed_title r b s :
  collapsed_from r (title_from b s) = collapsed_from r s.
Proof.
  revert r b. induction s as [|c s IH]; intros r b; [reflexivity|].
  rewrite title_from_cons. simpl. rewrite is_space_recase.
  destruct (Char.is_space c) eqn:E.
  - now rewrite (recase_space b c E), IH.
  - apply IH.
Qed.

(** *** Stripping *)

Lemma rstrip_rstrip s : rstrip (rstrip s) = rstrip s.
Proof.
  induction s as [|c s IH]; simpl; [reflexivity|].
  destruct (Char.is_space c && is_empty (rstrip s)) eqn:E; [reflexivity|].
  simpl. now rewrite IH, E.
Qed.

Lemma lstrip_rstrip_lstrip s : lstrip (rstrip (lstrip s)) = rstrip (lstrip s).
Proof.
  induction s as [|c s IH]; simpl; [reflexivity|].
  destruct (Char.is_space c) eqn:E; [assumption|].
  simpl. rewrite E. simpl. now rewrite E.
Qed.

Lemma strip_strip s : strip (strip s) = strip s.
Proof.
  unfold strip. now rewrite lstrip_rstrip_lstrip, rstrip_rstrip.
Qed.

Lemma lstrip_title s : lstrip (title_from false s) = title_from false (lstrip s).
Proof.
  induction s as [|c s IH]; [reflexivity|].
  rewrite title_from_cons. simpl. rewrite is_space_recase.
  destruct (Char.is_space c) eqn:E.
  - now rewrite (space_not_cased c E).
  - reflexivity.
Qed.

Lemma rstrip_title b s : rstrip (title_from b s) = title_from b (rstrip s).
Proof.
  revert b. induction s as [|c s IH]; intro b; [reflexivity|].
  rewrite title_from_cons. simpl.
  rewrite IH, is_empty_title, is_space_recase.
  now destruct (Char.is_space c && is_empty (rstrip s)).
Qed.

Lemma strip_title s : strip (title s) = title (strip s).
Proof. unfold strip, title. now rewrite lstrip_title, rstrip_title. Qed.

Lemma title_from_idem b s : title_from b (title_from b s) = title_from b s.
Proof.
  revert b. induction s as [|c s IH]; intro b; [reflexivity|].
  rewrite !title_from_cons, is_cased_recase, recase_idem. now rewrite IH.
Qed.

(** *** The cleaned form *)

Lemma basic_cleaning_cleaned s : cleaned (basic_cleaning s).
Proof.
  unfold cleaned, basic_cleaning, strip, collapse_ws. repeat split.
  - apply quote_free_rstrip, quote_free_lstrip, quote_free_collapse,
      quote_free_remove.
  - apply collapsed_rstrip, collapsed_lstrip with (r := false),
      collapsed_collapse.
  - apply strip_strip.
Qed.

Lemma basic_cleaning_fixed s : cleaned s -> basic_cleaning s = s.
Proof.
  intros (Hq & Hc & Hs). unfold basic_cleaning, collapse_ws.
  now rewrite (remove_quote_free _ Hq), (collapse_collapsed _ _ Hc).
Qed.

Lemma cleaned_title s : cleaned s -> cleaned (title s).
Proof.
  intros (Hq & Hc & Hs). unfold cleaned, title in *. repeat split.
  - now rewrite quote_free_title.
  - now rewrite collapsed_title.
  - fold (title s). now rewrite strip_title, Hs.
Qed.

Lemma clean_text_unfold s :
  clean_text s
  = if isupper (basic_cleaning s) then basic_cleaning s
    else title (basic_cleaning s).
Proof. reflexivity. Qed.

(** Cleaning a cleaned name changes nothing, whether the first cleaning
    kept the upper case or wrote title case. *)
Lemma clean_text_idem s : clean_text (clean_text s) = clean_text s.
Proof.
  pose proof (basic_cleaning_cleaned s) as Hc.
  rewrite (clean_text_unfold s).
  destruct (isupper (basic_cleaning s)) eqn:E.
  - rewrite clean_text_unfold, (basic_cleaning_fixed Hc). now rewrite E.
  - rewrite clean_text_unfold, (basic_cleaning_fixed (cleaned_title Hc)).
    unfold title at 3 5. rewrite title_from_idem.
    now destruct (isupper (title (basic_cleaning s))).
Qed.

End CleanFacts.

(** ** Loops, masks and chunks *)

Section Loops.
Context {A B : Type}.

Lemma bind_ok (r : result A) (k : A -> result B) (b : B) :
  bind r k = Ok b -> exists a, r = Ok a /\ k a = Ok b.
Proof. destruct r as [a|e]; simpl; [eauto | discriminate]. Qed.

Lemma for_each_pure (g : A -> B) (xs : list A) :
  for_each (fun x => Ok (g x)) xs = Ok (map g xs).
Proof. induction xs as [|x xs IH]; simpl; [reflexivity | now rewrite IH]. Qed.

Lemma for_each_ext (f g : A -> result B) (xs : list A) :
  (forall x, In x xs -> f x = g x) -> for_each f xs = for_each g xs.
Proof.
  induction xs as [|x xs IH]; intro H; simpl; [reflexivity|].
  rewrite (H x) by (left; reflexivity).
  rewrite IH by (intros; apply H; now right). reflexivity.
Qed.

Lemma for_each_app (h : A -> result B) (xs ys : list A) :
  for_each h (xs ++ ys)
  = (a <- for_each h xs ;; b <- for_each h ys ;; Ok (a ++ b)).
Proof.
  induction xs as [|x xs IH]; simpl.
  - now destruct (for_each h ys).
  - destruct (h x) as [y|e]; simpl; [|reflexivity].
    rewrite IH. destruct (for_each h xs) as [a|e]; simpl; [|reflexivity].
    now destruct (for_each h ys).
Qed.

Lemma for_each_length (h : A -> result B) (xs : list A) (ys : list B) :
  for_each h xs = Ok ys -> length ys = length xs.
Proof.
  revert ys. induction xs as [|x xs IH]; simpl; intros ys H.
  - now inversion H.
  - destruct (h x) as [y|e]; simpl in H; [|discriminate].
    destruct (for_each h xs) as [a|e]; simpl in H; [|discriminate].
    inversion H. simpl. now rewrite (IH a).
Qed.

Lemma for_each_map {C : Type} (f : C -> A) (h : A -> result B) (xs : list C) :
  for_each h (map f xs) = for_each (fun x => h (f x)) xs.
Proof. induction xs as [|x xs IH]; simpl; [reflexivity | now rewrite IH]. Qed.

(** A loop over the concatenation is the loop over the pieces, the
    results being concatenated. *)
Lemma for_each_concat (h : A -> result B) (pieces : list (list A)) :
  for_each h (concat pieces)
  = (parts <- for_each (for_each h) pieces ;; Ok (concat parts)).
Proof.
  induction pieces as [|p ps IH]; simpl; [reflexivity|].
  rewrite for_each_app, IH.
  destruct (for_each h p) as [a|e]; simpl; [|reflexivity].
  now destruct (for_each (for_each h) ps).
Qed.

End Loops.

Section Masks.
Context {A : Type}.

Lemma select_rows_map (p : A -> bool) (l : list A) :
  select_rows l (map p l) = filter p l.
Proof.
  induction l as [|x l IH]; simpl; [reflexivity|].
  now destruct (p x); rewrite IH.
Qed.

Lemma In_select_rows (l : list A) (mask : list bool) (x : A) :
  In x (select_rows l mask) -> In x l.
Proof.
  revert mask. induction l as [|y l IH]; intros [|b mask]; simpl; try tauto.
  destruct b; simpl; intros H.
  - destruct H; [now left | right; eauto].
  - right; eauto.
Qed.

End Masks.

Section Chunks.
Context {A : Type}.
Variable chunk_size : nat.
Hypothesis chunk_size_pos : 0 < chunk_size.

(** The chunks that the loop visits, put end to end, are the rows from
    the first start on. *)
Lemma concat_chunks_from (l : list A) (fuel start : nat) :
  length l - start <= fuel ->
  concat (map (chunk_rows chunk_size l) (range_from fuel start (length l) chunk_size))
  = skipn start l.
Proof.
  revert start. induction fuel as [|fuel IH]; intros start Hfuel; simpl.
  - symmetry. apply skipn_all2. lia.
  - destruct (start <? length l) eqn:E.
    + apply Nat.ltb_lt in E. simpl.
      rewrite IH by lia. unfold chunk_rows.
      destruct (Nat.le_gt_cases (start + chunk_size) (length l)) as [Hle|Hgt].
      * rewrite Nat.min_l by lia.
        replace (start + chunk_size - start) with chunk_size by lia.
        replace (start + chunk_size) with (chunk_size + start) by lia.
        rewrite <- skipn_skipn. apply firstn_skipn.
      * rewrite Nat.min_r by lia.
        rewrite (skipn_all2 l (n := start + chunk_size)) by lia.
        rewrite app_nil_r. apply firstn_all2. rewrite length_skipn. lia.
    + apply Nat.ltb_ge in E. symmetry. apply skipn_all2. lia.
Qed.

Lemma concat_chunks (l : list A) :
  concat (map (chunk_rows chunk_size l) (range_from (length l) 0 (length l) chunk_size))
  = l.
Proof. rewrite concat_chunks_from by lia. reflexivity. Qed.

(** The loop runs at least once on a frame that has a row. *)
Lemma range_nonempty (n : nat) :
  0 < n -> exists rest, range_from n 0 n chunk_size = 0 :: rest.
Proof.
  intro H. destruct n as [|n]; [inversion H|]. simpl. eauto.
Qed.

(** A chunked loop followed by [pd.concat] is the loop over all rows,
    when there is a row. *)
Lemma chunked_loop {B : Type} (h : A -> result B) (l : list A) :
  l <> [] ->
  (parts <- for_each (fun start => for_each h (chunk_rows chunk_size l start))
                     (range_from (length l) 0 (length l) chunk_size) ;;
   pd_concat parts)
  = for_each h l.
Proof.
  intro Hl.
  transitivity
    (for_each h (concat (map (chunk_rows chunk_size l)
                             (range_from (length l) 0 (length l) chunk_size))));
    [|now rewrite concat_chunks].
  rewrite for_each_concat.
  set (starts := range_from _ _ _ _).
  assert (Hs : exists rest, starts = 0 :: rest).
  { apply range_nonempty. destruct l; [congruence | simpl; lia]. }
  replace (for_each (for_each h) (map (chunk_rows chunk_size l) starts))
    with (for_each (fun start => for_each h (chunk_rows chunk_size l start)) starts).
  - destruct (for_each _ starts) as [parts|e] eqn:E; simpl; [|reflexivity].
    apply for_each_length in E. destruct Hs as [rest ->].
    destruct parts; [discriminate | reflexivity].
  - clear. induction starts as [|x xs IH]; simpl; [reflexivity|].
    now rewrite IH.
Qed.

End Chunks.

(** ** The chunked stages and the single pass *)

Lemma bind_assoc {A B C : Type} (r : result A) (f : A -> result B)
    (g : B -> result C) :
  bind (bind r f) g = bind r (fun a => bind (f a) g).
Proof. now destruct r. Qed.

Lemma py_range_pos (stop step : nat) :
  0 < step -> py_range stop step = Ok (range_from stop 0 stop step).
Proof. destruct step; [lia | reflexivity]. Qed.

Lemma rows_nonempty_len (df : DataFrame) : rows df <> [] <-> 0 < len df.
Proof.
  unfold len. destruct (rows df); simpl; split; intro; try congruence; lia.
Qed.

Lemma assign_names_map (f : BusinessRecord -> option string)
    (l : list BusinessRecord) :
  assign_names l (map f l) = map (fun r => with_name r (f r)) l.
Proof. induction l as [|r l IH]; simpl; [reflexivity | now rewrite IH]. Qed.

Lemma assign_clean_names (l : list BusinessRecord) :
  assign_names l (map clean_name (map business_name l)) = map clean_row l.
Proof. rewrite map_map. apply assign_names_map. Qed.

Lemma column_present {C : Type} (label : string) (field : BusinessRecord -> C)
    (df : DataFrame) :
  has_column label df = true -> column label field df = Ok (map field (rows df)).
Proof. unfold column. now intros ->. Qed.

Lemma column_absent {C : Type} (label : string) (field : BusinessRecord -> C)
    (df : DataFrame) :
  has_column label df = false -> column label field df = Raise (KeyError label).
Proof. unfold column. now intros ->. Qed.

Lemma has_column_iloc (label : string) (start stop : nat) (df : DataFrame) :
  has_column label (iloc start stop df) = has_column label df.
Proof. reflexivity. Qed.

Lemma rows_iloc (chunk_size start : nat) (df : DataFrame) :
  rows (iloc start (Nat.min (start + chunk_size) (len df)) df)
  = chunk_rows chunk_size (rows df) start.
Proof. reflexivity. Qed.

Section Stages.
Variable chunk_size : nat.
Hypothesis chunk_size_pos : 0 < chunk_size.
Variable df : DataFrame.
Hypothesis df_nonempty : rows df <> [].

Let starts : list nat := range_from (len df) 0 (len df) chunk_size.

Lemma starts_nonempty : exists rest, starts = 0 :: rest.
Proof. apply range_nonempty. now apply rows_nonempty_len. Qed.

(** A chunked pass over one column is the pass over the whole column. *)
Lemma chunked_column_loop {C B : Type} (label : string)
    (field : BusinessRecord -> C) (h : C -> result B) :
  (parts <-
     for_each (fun start =>
       let stop := Nat.min (start + chunk_size) (len df) in
       cells <- column label field (iloc start stop df) ;;
       for_each h cells) starts ;;
   pd_concat parts)
  = (cells <- column label field df ;; for_each h cells).
Proof.
  destruct (has_column label df) eqn:E.
  - rewrite column_present by exact E. cbn [bind].
    rewrite for_each_map.
    rewrite <- (chunked_loop chunk_size_pos (fun x => h (field x)) df_nonempty).
    f_equal. apply for_each_ext. intros start _. cbv zeta.
    rewrite column_present by (now rewrite has_column_iloc).
    cbn [bind]. rewrite rows_iloc. apply for_each_map.
  - rewrite column_absent by exact E. cbn [bind].
    destruct starts_nonempty as [rest ->]. cbn [for_each]. cbv zeta.
    rewrite column_absent by (now rewrite has_column_iloc). reflexivity.
Qed.

Lemma relevance_stage_single_pass :
  relevance_stage chunk_size df = relevance_single_pass df.
Proof.
  unfold relevance_stage, relevance_single_pass.
  rewrite (py_range_pos _ chunk_size_pos). cbn [bind]. fold starts.
  rewrite <- bind_assoc.
  rewrite (for_each_ext _ (fun start =>
        let stop := Nat.min (start + chunk_size) (len df) in
        cells <- column "business_name" business_name (iloc start stop df) ;;
        for_each (fun n => Ok (is_truck_relevant n)) cells)).
  2:{ intros start _. cbv zeta.
      destruct (column _ _ _) as [names|e]; cbn [bind];
        [now rewrite for_each_pure | reflexivity]. }
  rewrite chunked_column_loop.
  destruct (column "business_name" business_name df) as [names|e]; cbn [bind];
    [|reflexivity].
  now rewrite for_each_pure.
Qed.

Lemma country_stage_single_pass :
  country_stage chunk_size df = country_single_pass df.
Proof.
  unfold country_stage, country_single_pass.
  rewrite (py_range_pos _ chunk_size_pos). cbn [bind]. fold starts.
  rewrite <- bind_assoc, chunked_column_loop.
  now rewrite bind_assoc.
Qed.

Lemma clean_business_names_single_pass :
  clean_business_names_with chunk_size df = clean_single_pass df.
Proof.
  unfold clean_business_names_with, clean_single_pass.
  rewrite (py_range_pos _ chunk_size_pos). cbn [bind]. fold starts.
  destruct (has_column "business_name" df) eqn:E.
  - rewrite column_present by exact E. cbn [bind].
    erewrite for_each_ext.
    2:{ intros start _. cbv zeta.
        rewrite column_present by (now rewrite has_column_iloc).
        cbn [bind]. unfold set_business_name.
        rewrite rows_iloc, assign_clean_names. reflexivity. }
    rewrite for_each_pure.
    pose proof (concat_chunks chunk_size_pos (rows df)) as Hrows.
    fold (len df) in Hrows. fold starts in Hrows.
    destruct starts_nonempty as [rest Hr]. rewrite Hr in *.
    cbn [map pd_concat_frames bind columns iloc].
    assert (Hcat :
      concat (map rows
        (map (fun start =>
                {| columns := columns df;
                   rows := map clean_row (chunk_rows chunk_size (rows df) start) |})
             (0 :: rest)))
      = map clean_row (rows df)).
    { transitivity
        (map clean_row
           (concat (map (chunk_rows chunk_size (rows df)) (0 :: rest))));
        [|now rewrite Hrows].
      rewrite concat_map, !map_map. reflexivity. }
    cbn [map] in Hcat. rewrite Hcat.
    unfold set_business_name. rewrite assign_clean_names. reflexivity.
  - rewrite column_absent by exact E. cbn [bind].
    destruct starts_nonempty as [rest ->]. cbn [for_each]. cbv zeta.
    rewrite column_absent by (now rewrite has_column_iloc). reflexivity.
Qed.

End Stages.

(** ** What a stage keeps *)

Lemma relevance_stage_rows (chunk_size : nat) (df out : DataFrame) (r : BusinessRecord) :
  relevance_stage chunk_size df = Ok out -> In r (rows out) -> In r (rows df).
Proof.
  unfold relevance_stage. intros H Hin.
  apply bind_ok in H as (starts & _ & H).
  apply bind_ok in H as (parts & _ & H).
  apply bind_ok in H as (mask & _ & H).
  inversion H; subst out. simpl in Hin. eapply In_select_rows, Hin.
Qed.

Lemma country_stage_rows (chunk_size : nat) (df out : DataFrame) (r : BusinessRecord) :
  country_stage chunk_size df = Ok out -> In r (rows out) -> In r (rows df).
Proof.
  unfold country_stage. intros H Hin.
  apply bind_ok in H as (starts & _ & H).
  apply bind_ok in H as (parts & _ & H).
  apply bind_ok in H as (mask & _ & H).
  inversion H; subst out. simpl in Hin. eapply In_select_rows, Hin.
Qed.

(** Every row that the filter returns is a row of its argument whose
    confidence reaches the threshold. *)
Lemma filter_truck_businesses_rows (k1 k2 : nat) (df out : DataFrame)
    (r : BusinessRecord) :
  filter_truck_businesses_with k1 k2 df = Ok out ->
  In r (rows out) ->
  In r (rows df) /\ confident (confidence r) = true.
Proof.
  unfold filter_truck_businesses_with. intros H Hin.
  apply bind_ok in H as (conf & Hconf & H).
  apply bind_ok in H as (df2 & Hrel & H).
  assert (Hin2 : In r (rows df2)).
  { destruct (has_column "addresses" df2 && (0 <? len df2)).
    - eapply country_stage_rows; eassumption.
    - now inversion H; subst. }
  pose proof (relevance_stage_rows _ _ _ Hrel Hin2) as Hin1.
  unfold column in Hconf.
  destruct (has_column "confidence" df); [|discriminate].
  inversion Hconf; subst conf. simpl in Hin1.
  rewrite map_map, select_rows_map in Hin1.
  apply filter_In in Hin1. exact Hin1.
Qed.

(** A frame without rows makes the chunked cleaning raise. *)
Lemma clean_business_names_no_rows (chunk_size : nat) (df out : DataFrame) :
  rows df = [] -> clean_business_names_with chunk_size df <> Ok out.
Proof.
  unfold clean_business_names_with, len. intros ->.
  destruct chunk_size; simpl; discriminate.
Qed.

(** The rows that the cleaning returns are the cleaned rows that have a
    name, in order. *)
Lemma clean_business_names_rows (chunk_size : nat) (df out : DataFrame) :
  0 < chunk_size ->
  clean_business_names_with chunk_size df = Ok out ->
  rows out
  = filter (fun r => has_name (business_name r)) (map clean_row (rows df)).
Proof.
  intros Hk H.
  assert (Hne : rows df <> []).
  { intro E. exact (clean_business_names_no_rows _ _ E H). }
  rewrite (@clean_business_names_single_pass chunk_size Hk df Hne) in H.
  unfold clean_single_pass in H.
  apply bind_ok in H as (names & Hnames & H).
  apply bind_ok in H as (names' & Hnames' & H).
  unfold column in Hnames, Hnames'.
  change (has_column "business_name" (set_business_name df (map clean_name names)))
    with (has_column "business_name" df) in Hnames'.
  destruct (has_column "business_name" df); [|discriminate].
  inversion Hnames; subst names. inversion Hnames'; subst names'.
  inversion H; subst out. simpl.
  rewrite assign_clean_names, map_map. apply select_rows_map.
Qed.

Lemma has_name_some (name : option string) :
  has_name name = true <-> exists s, name = Some s /\ s <> "".
Proof.
  split.
  - destruct name as [[|c t]|]; simpl; try discriminate.
    intros _. eexists; split; [reflexivity | discriminate].
  - intros (s & -> & H). destruct s; [congruence | reflexivity].
Qed.

(** C6: every record that the full pipeline returns has a confidence of at
    least the threshold and a business name that is present and not
    empty. *)
Theorem filter_then_clean_invariant (df out : DataFrame) (r : BusinessRecord) :
  filter_then_clean df = Ok out ->
  In r (rows out) ->
  PrimFloat.leb CONFIDENCE_THRESHOLD (confidence r) = true
  /\ exists s, business_name r = Some s /\ s <> "".
Proof.
  unfold filter_then_clean. intros H Hin.
  apply bind_ok in H as (mid & Hfilter & Hclean).
  apply clean_business_names_rows in Hclean;
    [|apply Nat.ltb_lt; vm_compute; reflexivity].
  rewrite Hclean in Hin. apply filter_In in Hin as [Hin Hname].
  apply in_map_iff in Hin as (r0 & <- & Hin0).
  split.
  - apply (filter_truck_businesses_rows _ _ _ _ Hfilter) in Hin0.
    exact (proj2 Hin0).
  - now apply has_name_some.
Qed.

Lemma filter_then_clean_invariant_witness :
  let r := with_name discount_towing (Some "Discount Towing") in
  PrimFloat.leb CONFIDENCE_THRESHOLD (confidence r) = true
  /\ exists s, business_name r = Some s /\ s <> "".
Proof.
  apply (@filter_then_clean_invariant
           (frame [smith_freight; northern_hauling; discount_towing])
           (frame [with_name discount_towing (Some "Discount Towing")])).
  - vm_compute. reflexivity.
  - simpl. left. reflexivity.
Defined.

Example clean_business_names_run :
  clean_business_names (frame [unnamed_towing; discount_towing])
  = Ok (frame [with_name discount_towing (Some "Discount Towing")]).
Proof. vm_compute. reflexivity. Qed.

(** C10: the empty text is cleaned to the empty text, and only a value
    that is not text is cleaned to the absent value; a record with the
    empty name leaves through the last selection of the cleaning pipeline,
    which keeps the cleaned rows that have a name. *)
Theorem clean_name_empty :
  clean_name (Some "") = Some ""
  /\ (forall name, clean_name name = None <-> name = None)
  /\ has_name (clean_name (Some "")) = false
  /\ (forall df out,
        clean_business_names df = Ok out ->
        rows out
        = filter (fun r => has_name (business_name r)) (map clean_row (rows df))).
Proof.
  split; [reflexivity|]. split; [|split; [reflexivity|]].
  - intros [s|]; simpl; split; congruence.
  - intros df out H.
    apply clean_business_names_rows in H;
      [assumption | apply Nat.ltb_lt; vm_compute; reflexivity].
Qed.

Lemma clean_name_empty_witness :
  rows (frame [with_name discount_towing (Some "Discount Towing")])
  = filter (fun r => has_name (business_name r))
           (map clean_row (rows (frame [unnamed_towing; discount_towing]))).
Proof.
  apply (proj2 (proj2 (proj2 clean_name_empty))).
  vm_compute. reflexivity.
Defined.

(** ** Chunk sizes *)

(** On a frame that has a row, each chunked stage is the single pass,
    whatever the positive chunk size. *)
Theorem chunked_stages_are_single_pass (chunk_size : nat) (df : DataFrame) :
  0 < chunk_size -> rows df <> [] ->
  relevance_stage chunk_size df = relevance_single_pass df
  /\ country_stage chunk_size df = country_single_pass df
  /\ clean_business_names_with chunk_size df = clean_single_pass df.
Proof.
  intros Hk Hdf. repeat split.
  - now apply relevance_stage_single_pass.
  - now apply country_stage_single_pass.
  - now apply clean_business_names_single_pass.
Qed.

(** The result of a chunked stage does not depend on the positive chunk
    size, on any frame. *)
Theorem chunk_size_independence (k1 k2 : nat) (df : DataFrame) :
  0 < k1 -> 0 < k2 ->
  relevance_stage k1 df = relevance_stage k2 df
  /\ country_stage k1 df = country_stage k2 df
  /\ clean_business_names_with k1 df = clean_business_names_with k2 df.
Proof.
  intros H1 H2.
  destruct (rows df) as [|r l] eqn:E.
  - unfold relevance_stage, country_stage, clean_business_names_with, len.
    rewrite E, !py_range_pos by assumption. repeat split.
  - assert (Hdf : rows df <> []) by (rewrite E; discriminate).
    rewrite (@relevance_stage_single_pass k1 H1 df Hdf),
            (@relevance_stage_single_pass k2 H2 df Hdf),
            (@country_stage_single_pass k1 H1 df Hdf),
            (@country_stage_single_pass k2 H2 df Hdf),
            (@clean_business_names_single_pass k1 H1 df Hdf),
            (@clean_business_names_single_pass k2 H2 df Hdf).
    repeat split.
Qed.

(** The five records of the scenarios, through the filter and through the
    whole pipeline. *)
Example filter_truck_businesses_run :
  filter_truck_businesses
    (frame [abc_trucking (AddrSeq []); smith_freight; northern_hauling;
            discount_towing; nameless])
  = Ok (frame [abc_trucking (AddrSeq []); discount_towing]).
Proof. vm_compute. reflexivity. Qed.

Example filter_then_clean_run :
  filter_then_clean
    (frame [abc_trucking (AddrSeq []); smith_freight; northern_hauling;
            discount_towing; nameless])
  = Ok (frame [with_name (abc_trucking (AddrSeq [])) (Some "Abc Trucking Llc");
               with_name discount_towing (Some "Discount Towing")]).
Proof. vm_compute. reflexivity. Qed.

(** C2, at the frame without rows: the chunked relevance stage and the
    chunked cleaning raise for every positive chunk size, where the single
    pass returns the frame; the filter raises in the same way on a frame
    whose rows all lie below the confidence threshold. *)
Theorem chunked_stages_raise_without_rows (k : nat) :
  relevance_stage (S k) no_rows = Raise (ValueError "No objects to concatenate")
  /\ relevance_single_pass no_rows = Ok no_rows
  /\ clean_business_names_with (S k) no_rows
     = Raise (ValueError "No objects to concatenate")
  /\ clean_single_pass no_rows = Ok no_rows
  /\ filter_truck_businesses (frame [smith_freight])
     = Raise (ValueError "No objects to concatenate").
Proof. repeat split; vm_compute; reflexivity. Qed.

(** ** The country stage *)

Lemma is_us_readable (x : addresses_cell) :
  readable x = true -> is_us x = Ok (passes_country x).
Proof.
  destruct x as [[|a l]| |]; simpl; try reflexivity; try discriminate.
  unfold is_us, get_country; simpl. now destruct (country a).
Qed.

Lemma for_each_is_us (cells : list addresses_cell) :
  Forall (fun x => readable x = true) cells ->
  for_each is_us cells = Ok (map passes_country cells).
Proof.
  induction 1 as [|x cells Hx _ IH]; simpl; [reflexivity|].
  now rewrite (is_us_readable _ Hx), IH.
Qed.

Lemma for_each_raises {A B : Type} (h : A -> result B) (xs : list A) (x : A)
    (e : exn) :
  In x xs -> h x = Raise e -> exists e', for_each h xs = Raise e'.
Proof.
  intros Hin Hx. induction xs as [|y xs IH]; simpl; [contradiction|].
  destruct Hin as [->|Hin].
  - rewrite Hx. simpl. eauto.
  - destruct (h y); simpl; [|eauto].
    destruct (IH Hin) as [e' ->]. simpl. eauto.
Qed.

(** On cells that the lambda can read, the country stage keeps the rows
    that pass, in order. *)
Lemma country_stage_readable (chunk_size : nat) (df : DataFrame) :
  0 < chunk_size -> rows df <> [] ->
  has_column "addresses" df = true ->
  Forall (fun r => readable (addresses r) = true) (rows df) ->
  country_stage chunk_size df
  = Ok {| columns := columns df;
          rows := filter (fun r => passes_country (addresses r)) (rows df) |}.
Proof.
  intros Hk Hdf Hcol Hcells.
  rewrite (@country_stage_single_pass chunk_size Hk df Hdf).
  unfold country_single_pass.
  rewrite column_present by exact Hcol. cbn [bind].
  rewrite for_each_is_us by (now apply Forall_map).
  cbn [bind]. unfold select. now rewrite map_map, select_rows_map.
Qed.

(** C7: in the country stage a record with an empty address list is
    kept, and a record with a non-empty address list is kept exactly when
    the country of its first address is US. *)
Theorem country_stage_policy (chunk_size : nat) (df : DataFrame) :
  0 < chunk_size -> rows df <> [] ->
  has_column "addresses" df = true ->
  Forall (fun r => readable (addresses r) = true) (rows df) ->
  exists out,
    country_stage chunk_size df = Ok out
    /\ forall r, In r (rows df) ->
         (addresses r = AddrSeq [] -> In r (rows out))
         /\ (forall a l, addresses r = AddrSeq (a :: l) ->
               (In r (rows out) <-> country a = Some "US")).
Proof.
  intros Hk Hdf Hcol Hcells.
  eexists. split; [now apply country_stage_readable|].
  intros r Hin. cbn [rows]. split.
  - intro E. apply filter_In. split; [assumption|]. now rewrite E.
  - intros a l E. rewrite filter_In, E. cbn [passes_country].
    split.
    + intros [_ H]. destruct (country a) as [c|]; [|discriminate].
      apply String.eqb_eq in H. now subst c.
    + intros ->. split; [assumption | reflexivity].
Qed.

Lemma country_stage_policy_witness :
  exists out,
    country_stage 5000 (frame [abc_trucking (AddrSeq []); northern_hauling]) = Ok out
    /\ forall r, In r [abc_trucking (AddrSeq []); northern_hauling] ->
         (addresses r = AddrSeq [] -> In r (rows out))
         /\ (forall a l, addresses r = AddrSeq (a :: l) ->
               (In r (rows out) <-> country a = Some "US")).
Proof.
  apply (@country_stage_policy 5000
           (frame [abc_trucking (AddrSeq []); northern_hauling])).
  - apply Nat.ltb_lt. vm_compute. reflexivity.
  - discriminate.
  - reflexivity.
  - repeat constructor.
Defined.

(** ** Missing values *)

(** A record without a business name and a record whose addresses are
    [None] go through the filter without an error: the first is dropped,
    the second is kept. *)
Lemma missing_values_do_not_abort :
  business_name nameless = None
  /\ filter_truck_businesses (frame [nameless]) = Ok (frame [])
  /\ addresses (abc_trucking AddrNone) = AddrNone
  /\ filter_truck_businesses (frame [abc_trucking AddrNone])
     = Ok (frame [abc_trucking AddrNone]).
Proof. repeat split; vm_compute; reflexivity. Qed.

(** ** Normalization for matching *)

Module SuffixFacts.
Import Str.

Lemma append_empty_r (s : string) : (s ++ "")%string = s.
Proof. induction s as [|c s IH]; simpl; [reflexivity | now rewrite IH]. Qed.

Lemma append_assoc (s t u : string) :
  ((s ++ t) ++ u)%string = (s ++ t ++ u)%string.
Proof. induction s as [|c s IH]; simpl; [reflexivity | now rewrite IH]. Qed.

Lemma join_snoc (l : list string) (s : string) :
  join (l ++ [s]) = (join l ++ s)%string.
Proof.
  induction l as [|x l IH]; simpl.
  - apply append_empty_r.
  - now rewrite IH, append_assoc.
Qed.

Lemma endswith_length (s suffix : string) :
  endswith s suffix = true -> String.length suffix <= String.length s.
Proof.
  induction s as [|c s IH]; cbn [endswith]; rewrite orb_true_iff; intros [H|H].
  - apply String.eqb_eq in H. subst suffix. reflexivity.
  - discriminate.
  - apply String.eqb_eq in H. subst suffix. reflexivity.
  - specialize (IH H). cbn [String.length]. lia.
Qed.

(** The guarded slice of the loop takes the suffix off and nothing else. *)
Lemma endswith_drop_last (s suffix : string) :
  endswith s suffix = true ->
  s = (drop_last (String.length suffix) s ++ suffix)%string.
Proof.
  unfold drop_last.
  induction s as [|c s IH]; cbn [endswith]; rewrite orb_true_iff; intros [H|H].
  - apply String.eqb_eq in H. now subst suffix.
  - discriminate.
  - apply String.eqb_eq in H. subst suffix.
    now rewrite Nat.sub_diag.
  - pose proof (endswith_length _ _ H) as Hlen.
    cbn [String.length].
    replace (S (String.length s) - String.length suffix)
      with (S (String.length s - String.length suffix)) by lia.
    cbn [take append]. now rewrite <- (IH H).
Qed.

Lemma subseq_length {A : Type} (l1 l2 : list A) :
  subseq l1 l2 -> length l1 <= length l2.
Proof. induction 1; simpl; lia. Qed.

(** The loop over any table of suffixes: what it removes is a selection of
    the table in the order of the table, read from the end of the name
    backwards. *)
Lemma strip_loop (suffixes : list string) (name : string) :
  exists removed,
    subseq removed suffixes
    /\ name = (fold_left strip_suffix suffixes name ++ join (rev removed))%string
    /\ (existsb (endswith name) suffixes = true -> removed <> []).
Proof.
  revert name. induction suffixes as [|suffix rest IH]; intro name.
  - exists []. cbn. repeat split.
    + constructor.
    + now rewrite append_empty_r.
    + discriminate.
  - cbn [fold_left existsb]. unfold strip_suffix at 2.
    destruct (endswith name suffix) eqn:E.
    + destruct (IH (drop_last (String.length suffix) name))
        as (removed & Hsub & Hname & _).
      exists (suffix :: removed). repeat split.
      * now constructor.
      * cbn [rev]. rewrite join_snoc, <- append_assoc, <- Hname.
        now apply endswith_drop_last.
      * discriminate.
    + destruct (IH name) as (removed & Hsub & Hname & Hsome).
      exists removed. repeat split.
      * now constructor.
      * exact Hname.
      * exact Hsome.
Qed.

End SuffixFacts.

(** The name of scenario 6 is not normalized to the text without the
    suffix. *)
Lemma normalize_acme_not_stripped :
  normalize_for_matching (Some "Acme Logistics, LLC.") <> "acme logistics".
Proof. vm_compute. discriminate. Qed.

(** C4, as the code has it: the suffixes are looked for before the
    punctuation is replaced, so the full stop hides the suffix and the
    result keeps it. *)
Theorem normalize_acme :
  normalize_for_matching (Some "Acme Logistics, LLC.") = "acme logistics llc".
Proof. vm_compute. reflexivity. Qed.

(** One call removes two suffixes, where stripping exactly one would
    leave the first of them. *)
Lemma strip_suffixes_removes_two :
  Str.strip (Str.lower "Acme Co LLC") = "acme co llc"
  /\ strip_suffixes "acme co llc" = "acme"
  /\ strip_one_suffix "acme co llc" = "acme co"
  /\ normalize_for_matching (Some "Acme Co LLC") = "acme".
Proof. repeat split; vm_compute; reflexivity. Qed.

(** C5, as the code has it: the loop tries the five suffixes in the order
    of the table, each on what the turns before left, so that it removes
    each suffix at most once and at least one suffix when the name ends
    with one; the name is the result followed by the removed suffixes,
    the last removed first. *)
Theorem strip_suffixes_each_once (name : string) :
  exists removed,
    subseq removed SUFFIXES
    /\ length removed <= 5
    /\ name = (strip_suffixes name ++ join (rev removed))%string
    /\ (existsb (Str.endswith name) SUFFIXES = true -> removed <> []).
Proof.
  destruct (SuffixFacts.strip_loop SUFFIXES name)
    as (removed & Hsub & Hname & Hsome).
  exists removed. repeat split; try assumption.
  apply SuffixFacts.subseq_length in Hsub. exact Hsub.
Qed.

Lemma strip_suffixes_each_once_witness :
  exists removed,
    subseq removed SUFFIXES
    /\ length removed <= 5
    /\ "acme co llc" = (strip_suffixes "acme co llc" ++ join (rev removed))%string
    /\ (existsb (Str.endswith "acme co llc") SUFFIXES = true -> removed <> []).
Proof. apply (strip_suffixes_each_once "acme co llc"). Defined.

(** * Further properties of the filter *)

Lemma chunked_stages_are_single_pass_witness :
  relevance_stage 1 (frame [abc_trucking (AddrSeq []); northern_hauling])
  = relevance_single_pass (frame [abc_trucking (AddrSeq []); northern_hauling])
  /\ country_stage 1 (frame [abc_trucking (AddrSeq []); northern_hauling])
     = country_single_pass (frame [abc_trucking (AddrSeq []); northern_hauling])
  /\ clean_business_names_with 1 (frame [abc_trucking (AddrSeq []); northern_hauling])
     = clean_single_pass (frame [abc_trucking (AddrSeq []); northern_hauling]).
Proof.
  apply (@chunked_stages_are_single_pass 1
           (frame [abc_trucking (AddrSeq []); northern_hauling])).
  - lia.
  - discriminate.
Defined.

Lemma chunk_size_independence_witness :
  relevance_stage 1 (frame [abc_trucking (AddrSeq []); northern_hauling])
  = relevance_stage 2 (frame [abc_trucking (AddrSeq []); northern_hauling])
  /\ country_stage 1 (frame [abc_trucking (AddrSeq []); northern_hauling])
     = country_stage 2 (frame [abc_trucking (AddrSeq []); northern_hauling])
  /\ clean_business_names_with 1 (frame [abc_trucking (AddrSeq []); northern_hauling])
     = clean_business_names_with 2 (frame [abc_trucking (AddrSeq []); northern_hauling]).
Proof.
  apply (@chunk_size_independence 1 2
           (frame [abc_trucking (AddrSeq []); northern_hauling])); lia.
Defined.

Section ListFacts.
Context {A : Type}.

Lemma subseq_nil_l (l : list A) : subseq [] l.
Proof. induction l; constructor; assumption. Qed.

Lemma subseq_refl (l : list A) : subseq l l.
Proof. induction l; constructor; assumption. Qed.

Lemma subseq_trans (l1 l2 l3 : list A) :
  subseq l1 l2 -> subseq l2 l3 -> subseq l1 l3.
Proof.
  intros H12 H23. revert l1 H12.
  induction H23 as [|x l2 l3 _ IH|x l2 l3 _ IH]; intros l1 H12.
  - assumption.
  - constructor. now apply IH.
  - inversion H12; subst.
    + apply subseq_skip. now apply IH.
    + apply subseq_take. now apply IH.
Qed.

Lemma select_rows_subseq (l : list A) (mask : list bool) :
  subseq (select_rows l mask) l.
Proof.
  revert mask. induction l as [|x l IH]; intros [|b mask]; simpl.
  - constructor.
  - constructor.
  - apply subseq_nil_l.
  - destruct b; [apply subseq_take | apply subseq_skip]; apply IH.
Qed.

Lemma filter_all (p : A -> bool) (l : list A) :
  (forall x, In x l -> p x = true) -> filter p l = l.
Proof.
  induction l as [|x l IH]; intro H; simpl; [reflexivity|].
  rewrite (H x) by (now left). f_equal. apply IH. intros; apply H; now right.
Qed.

Lemma filter_none (p : A -> bool) (l : list A) :
  (forall x, In x l -> p x = false) -> filter p l = [].
Proof.
  induction l as [|x l IH]; intro H; simpl; [reflexivity|].
  rewrite (H x) by (now left). apply IH. intros; apply H; now right.
Qed.

Lemma filter_twice (p q : A -> bool) (l : list A) :
  filter q (filter p l) = filter (fun x => p x && q x) l.
Proof.
  induction l as [|x l IH]; simpl; [reflexivity|].
  destruct (p x); simpl; [|assumption].
  destruct (q x); now rewrite IH.
Qed.

Lemma filter_some (p : A -> bool) (l : list A) (x : A) :
  In x l -> p x = true -> filter p l <> [].
Proof.
  intros Hin Hp E.
  assert (H : In x (filter p l)) by (apply filter_In; auto).
  rewrite E in H. contradiction.
Qed.

(** The rows that a mask computed by a loop keeps are rows on which the
    body answered true. *)
Lemma for_each_select {B : Type} (h : B -> result bool) (f : A -> B)
    (l : list A) (mask : list bool) (x : A) :
  for_each h (map f l) = Ok mask ->
  In x (select_rows l mask) -> h (f x) = Ok true.
Proof.
  revert mask. induction l as [|y l IH]; intros mask H Hin.
  - destruct mask; contradiction.
  - cbn [map for_each] in H.
    apply bind_ok in H as (b & Hb & H).
    apply bind_ok in H as (bs & Hbs & H).
    inversion H; subst mask. cbn [select_rows] in Hin.
    destruct b.
    + destruct Hin as [->|Hin]; [assumption | eauto].
    + eauto.
Qed.

Lemma for_each_all {B C : Type} (h : B -> result C) (g : B -> C) (l : list B) :
  (forall x, In x l -> h x = Ok (g x)) -> for_each h l = Ok (map g l).
Proof.
  intro H. rewrite <- for_each_pure. now apply for_each_ext.
Qed.

End ListFacts.

Lemma frame_eta (df : DataFrame) :
  {| columns := columns df; rows := rows df |} = df.
Proof. now destruct df. Qed.

Lemma relevance_stage_columns (chunk_size : nat) (df out : DataFrame) :
  relevance_stage chunk_size df = Ok out ->
  columns out = columns df /\ subseq (rows out) (rows df).
Proof.
  unfold relevance_stage. intro H.
  apply bind_ok in H as (starts & _ & H).
  apply bind_ok in H as (parts & _ & H).
  apply bind_ok in H as (mask & _ & H).
  inversion H; subst out. split; [reflexivity | apply select_rows_subseq].
Qed.

Lemma country_stage_columns (chunk_size : nat) (df out : DataFrame) :
  country_stage chunk_size df = Ok out ->
  columns out = columns df /\ subseq (rows out) (rows df).
Proof.
  unfold country_stage. intro H.
  apply bind_ok in H as (starts & _ & H).
  apply bind_ok in H as (parts & _ & H).
  apply bind_ok in H as (mask & _ & H).
  inversion H; subst out. split; [reflexivity | apply select_rows_subseq].
Qed.

(** The filter returns the column labels it was given and a selection of
    the rows it was given: no row is changed, added or moved. *)
Theorem filter_truck_businesses_selects (k1 k2 : nat) (df out : DataFrame) :
  filter_truck_businesses_with k1 k2 df = Ok out ->
  columns out = columns df /\ subseq (rows out) (rows df).
Proof.
  unfold filter_truck_businesses_with. intro H.
  apply bind_ok in H as (conf & _ & H).
  apply bind_ok in H as (df2 & Hrel & H).
  apply relevance_stage_columns in Hrel as [Hc2 Hr2].
  cbn [select columns rows] in Hc2, Hr2.
  assert (Hr1 : subseq (rows df2) (rows df))
    by (eapply subseq_trans; [exact Hr2 | apply select_rows_subseq]).
  destruct (has_column "addresses" df2 && (0 <? len df2)).
  - apply country_stage_columns in H as [Hc3 Hr3]. split.
    + congruence.
    + eapply subseq_trans; eassumption.
  - inversion H; subst out. split; assumption.
Qed.

Lemma filter_truck_businesses_selects_witness :
  columns (frame [abc_trucking (AddrSeq []); discount_towing])
  = columns (frame [abc_trucking (AddrSeq []); smith_freight;
                    northern_hauling; discount_towing; nameless])
  /\ subseq [abc_trucking (AddrSeq []); discount_towing]
            [abc_trucking (AddrSeq []); smith_freight;
             northern_hauling; discount_towing; nameless].
Proof.
  apply (@filter_truck_businesses_selects 10000 5000
           (frame [abc_trucking (AddrSeq []); smith_freight;
                   northern_hauling; discount_towing; nameless])
           (frame [abc_trucking (AddrSeq []); discount_towing])).
  vm_compute. reflexivity.
Defined.

Lemma confidence_mask (df : DataFrame) :
  select df (map confident (map confidence (rows df)))
  = {| columns := columns df;
       rows := filter (fun r => confident (confidence r)) (rows df) |}.
Proof. unfold select. now rewrite map_map, select_rows_map. Qed.

(** The relevance stage on a frame that has a row and a name column. *)
Lemma relevance_stage_result (chunk_size : nat) (df : DataFrame) :
  0 < chunk_size -> rows df <> [] ->
  has_column "business_name" df = true ->
  relevance_stage chunk_size df
  = Ok {| columns := columns df;
          rows := filter (fun r => is_truck_relevant (business_name r)) (rows df) |}.
Proof.
  intros Hk Hdf Hcol.
  rewrite (@relevance_stage_single_pass chunk_size Hk df Hdf).
  unfold relevance_single_pass.
  rewrite column_present by exact Hcol. cbn [bind].
  unfold select. now rewrite map_map, select_rows_map.
Qed.

(** What the filter returns when it returns: with the two columns it
    reads, a row that reaches the threshold, and address cells that can be
    read on the rows that reach the country stage, the result is the rows
    that pass the confidence test, the relevance test and - when the frame
    carries addresses - the country test, in their order. *)
Theorem filter_truck_businesses_result (k1 k2 : nat) (df : DataFrame) :
  0 < k1 -> 0 < k2 ->
  has_column "confidence" df = true ->
  has_column "business_name" df = true ->
  (exists r, In r (rows df) /\ confident (confidence r) = true) ->
  (forall r, In r (rows df) ->
     confident (confidence r) = true ->
     is_truck_relevant (business_name r) = true ->
     readable (addresses r) = true) ->
  filter_truck_businesses_with k1 k2 df
  = Ok {| columns := columns df;
          rows := filter (kept (has_column "addresses" df)) (rows df) |}.
Proof.
  intros Hk1 Hk2 Hconf Hname (r0 & Hin0 & Hr0) Hread.
  unfold filter_truck_businesses_with.
  rewrite column_present by exact Hconf. cbn [bind].
  rewrite confidence_mask.
  rewrite relevance_stage_result; [| assumption | | exact Hname].
  2:{ cbn [rows]. now apply (filter_some _ _ r0). }
  cbn [bind columns rows]. rewrite filter_twice.
  set (df2 := {| columns := columns df; rows := filter _ (rows df) |}).
  change (has_column "addresses" df2) with (has_column "addresses" df).
  destruct (has_column "addresses" df) eqn:Haddr; cbn [andb].
  - destruct (0 <? len df2) eqn:Hlen.
    + rewrite country_stage_readable; try assumption.
      * subst df2. cbn [columns rows]. rewrite filter_twice. reflexivity.
      * apply rows_nonempty_len. now apply Nat.ltb_lt.
      * subst df2. cbn [rows]. apply Forall_forall. intros r Hin.
        apply filter_In in Hin as [Hin Hr].
        apply andb_true_iff in Hr as [Hc Hrel]. now apply Hread.
    + apply Nat.ltb_ge in Hlen. unfold len in Hlen.
      assert (E : rows df2 = []) by (destruct (rows df2); [reflexivity | simpl in Hlen; lia]).
      subst df2. cbn [rows] in E. f_equal. f_equal.
      rewrite E. symmetry.
      unfold kept.
      rewrite <- (filter_twice
        (fun r => confident (confidence r) && is_truck_relevant (business_name r))
        (fun r => passes_country (addresses r))).
      now rewrite E.
  - subst df2. f_equal. f_equal. apply filter_ext. intro r. unfold kept.
    now rewrite andb_true_r.
Qed.

Lemma filter_truck_businesses_result_witness :
  filter_truck_businesses_with 2 1
    (frame [abc_trucking (AddrSeq []); smith_freight; northern_hauling;
            discount_towing; nameless])
  = Ok (frame [abc_trucking (AddrSeq []); discount_towing]).
Proof.
  apply (@filter_truck_businesses_result 2 1
           (frame [abc_trucking (AddrSeq []); smith_freight; northern_hauling;
                   discount_towing; nameless])).
  - lia.
  - lia.
  - reflexivity.
  - reflexivity.
  - exists (abc_trucking (AddrSeq [])). split; [simpl; tauto | reflexivity].
  - intros r Hin _ _. simpl in Hin.
    destruct Hin as [<-|[<-|[<-|[<-|[<-|[]]]]]]; reflexivity.
Defined.

(** How the filter fails: without a confidence column it raises a key
    error; when no row reaches the threshold the loop over the names never
    runs and the concatenation of no masks raises; when a row reaches the
    threshold and the frame has no name column, the first chunk raises a
    key error. *)
Theorem filter_truck_businesses_errors (k1 k2 : nat) (df : DataFrame) :
  0 < k1 ->
  (has_column "confidence" df = false ->
   filter_truck_businesses_with k1 k2 df = Raise (KeyError "confidence"))
  /\ (has_column "confidence" df = true ->
      (forall r, In r (rows df) -> confident (confidence r) = false) ->
      filter_truck_businesses_with k1 k2 df
      = Raise (ValueError "No objects to concatenate"))
  /\ (has_column "confidence" df = true ->
      has_column "business_name" df = false ->
      (exists r, In r (rows df) /\ confident (confidence r) = true) ->
      filter_truck_businesses_with k1 k2 df = Raise (KeyError "business_name")).
Proof.
  intro Hk1. unfold filter_truck_businesses_with. repeat split.
  - intro Hconf. now rewrite column_absent by exact Hconf.
  - intros Hconf Hnone.
    rewrite column_present by exact Hconf. cbn [bind].
    rewrite confidence_mask, (filter_none _ _ Hnone).
    unfold relevance_stage, len. cbn [rows length].
    now rewrite py_range_pos by assumption.
  - intros Hconf Hname (r0 & Hin0 & Hr0).
    rewrite column_present by exact Hconf. cbn [bind].
    rewrite confidence_mask.
    set (df1 := {| columns := columns df; rows := filter _ (rows df) |}).
    assert (Hdf1 : rows df1 <> []) by (now apply (filter_some _ _ r0)).
    rewrite (@relevance_stage_single_pass k1 Hk1 df1 Hdf1).
    unfold relevance_single_pass.
    now rewrite column_absent by exact Hname.
Qed.

Lemma filter_truck_businesses_errors_witness :
  filter_truck_businesses_with 10000 5000
    {| columns := ["business_name"]; rows := [discount_towing] |}
  = Raise (KeyError "confidence")
  /\ filter_truck_businesses_with 10000 5000 (frame [smith_freight])
     = Raise (ValueError "No objects to concatenate")
  /\ filter_truck_businesses_with 10000 5000
       {| columns := ["confidence"]; rows := [discount_towing] |}
     = Raise (KeyError "business_name").
Proof.
  assert (Hk : 0 < 10000) by (apply Nat.ltb_lt; vm_compute; reflexivity).
  split; [|split].
  - apply (@filter_truck_businesses_errors 10000 5000
             {| columns := ["business_name"]; rows := [discount_towing] |} Hk).
    reflexivity.
  - apply (@filter_truck_businesses_errors 10000 5000 (frame [smith_freight]) Hk).
    + reflexivity.
    + intros r [<-|[]]. reflexivity.
  - apply (@filter_truck_businesses_errors 10000 5000
             {| columns := ["confidence"]; rows := [discount_towing] |} Hk).
    + reflexivity.
    + reflexivity.
    + exists discount_towing. split; [simpl; tauto | reflexivity].
Defined.

Lemma relevance_stage_no_rows (chunk_size : nat) (df out : DataFrame) :
  rows df = [] -> relevance_stage chunk_size df <> Ok out.
Proof.
  unfold relevance_stage, len. intros ->.
  destruct chunk_size; simpl; discriminate.
Qed.

(** When the relevance stage returns, the frame had a row and a name
    column, and the result is the relevant rows. *)
Lemma relevance_stage_ok (chunk_size : nat) (df out : DataFrame) :
  0 < chunk_size ->
  relevance_stage chunk_size df = Ok out ->
  rows df <> []
  /\ has_column "business_name" df = true
  /\ out = {| columns := columns df;
              rows := filter (fun r => is_truck_relevant (business_name r))
                             (rows df) |}.
Proof.
  intros Hk H.
  assert (Hdf : rows df <> []).
  { intro E. exact (relevance_stage_no_rows _ _ E H). }
  destruct (has_column "business_name" df) eqn:Hn.
  - rewrite relevance_stage_result in H by assumption.
    inversion H. auto.
  - rewrite (@relevance_stage_single_pass chunk_size Hk df Hdf) in H.
    unfold relevance_single_pass in H.
    rewrite column_absent in H by exact Hn. discriminate.
Qed.

(** What holds of a frame that the filter returned with a row in it. *)
Lemma filter_truck_businesses_output (k1 k2 : nat) (df out : DataFrame) :
  0 < k1 -> 0 < k2 ->
  filter_truck_businesses_with k1 k2 df = Ok out ->
  rows out <> [] ->
  has_column "confidence" out = true
  /\ has_column "business_name" out = true
  /\ forall r, In r (rows out) ->
       confident (confidence r) = true
       /\ is_truck_relevant (business_name r) = true
       /\ (has_column "addresses" out = true -> is_us (addresses r) = Ok true).
Proof.
  intros Hk1 Hk2 H Hout.
  unfold filter_truck_businesses_with in H.
  apply bind_ok in H as (conf & Hconf & H).
  apply bind_ok in H as (df2 & Hrel & H).
  unfold column in Hconf.
  destruct (has_column "confidence" df) eqn:Hc; [|discriminate].
  inversion Hconf; subst conf. clear Hconf.
  rewrite confidence_mask in Hrel.
  apply relevance_stage_ok in Hrel as (_ & Hn & ->); [|exact Hk1].
  cbn [columns rows] in H. rewrite filter_twice in H.
  change (has_column "business_name" {| columns := columns df; rows := _ |})
    with (has_column "business_name" df) in Hn.
  set (df2 := {| columns := columns df; rows := filter _ (rows df) |}) in H.
  assert (Hrows2 : forall r, In r (rows df2) ->
            confident (confidence r) = true
            /\ is_truck_relevant (business_name r) = true).
  { intros r Hin. subst df2. cbn [rows] in Hin.
    apply filter_In in Hin as [_ Hr]. now apply andb_true_iff in Hr. }
  destruct (has_column "addresses" df2 && (0 <? len df2)) eqn:Hguard.
  - apply andb_true_iff in Hguard as [Haddr Hlen].
    assert (Hdf2 : rows df2 <> [])
      by (apply rows_nonempty_len; now apply Nat.ltb_lt).
    rewrite (@country_stage_single_pass k2 Hk2 df2 Hdf2) in H.
    unfold country_single_pass in H.
    rewrite column_present in H by exact Haddr. cbn [bind] in H.
    apply bind_ok in H as (mask & Hmask & H).
    inversion H; subst out. clear H.
    split; [assumption | split; [assumption|]].
    intros r Hin. cbn [select rows] in Hin.
    pose proof (In_select_rows _ _ _ Hin) as Hin2.
    split; [now apply Hrows2 | split; [now apply Hrows2|]].
    intros _. exact (@for_each_select _ _ is_us addresses _ _ _ Hmask Hin).
  - inversion H; subst out. clear H.
    split; [assumption | split; [assumption|]].
    intros r Hin.
    split; [now apply Hrows2 | split; [now apply Hrows2|]].
    intro Haddr. rewrite Haddr in Hguard. cbn [andb] in Hguard.
    apply Nat.ltb_ge in Hguard.
    apply rows_nonempty_len in Hout. lia.
Qed.

(** A frame with a row whose rows all pass the three tests goes through
    the filter unchanged. *)
Lemma filter_truck_businesses_fixed (k1 k2 : nat) (df : DataFrame) :
  0 < k1 -> 0 < k2 ->
  rows df <> [] ->
  has_column "confidence" df = true ->
  has_column "business_name" df = true ->
  (forall r, In r (rows df) ->
     confident (confidence r) = true
     /\ is_truck_relevant (business_name r) = true
     /\ (has_column "addresses" df = true -> is_us (addresses r) = Ok true)) ->
  filter_truck_businesses_with k1 k2 df = Ok df.
Proof.
  intros Hk1 Hk2 Hdf Hc Hn Hrows.
  unfold filter_truck_businesses_with.
  rewrite column_present by exact Hc. cbn [bind].
  rewrite confidence_mask, filter_all by (intros r Hin; now apply Hrows).
  rewrite frame_eta.
  rewrite relevance_stage_result by assumption.
  rewrite filter_all by (intros r Hin; now apply Hrows).
  rewrite frame_eta. cbn [bind].
  destruct (has_column "addresses" df) eqn:Haddr; cbn [andb]; [|reflexivity].
  apply rows_nonempty_len, Nat.ltb_lt in Hdf. rewrite Hdf.
  apply Nat.ltb_lt, rows_nonempty_len in Hdf.
  rewrite (@country_stage_single_pass k2 Hk2 df Hdf).
  unfold country_single_pass.
  rewrite column_present by exact Haddr. cbn [bind].
  rewrite for_each_map.
  rewrite (for_each_all (fun r => is_us (addresses r)) (fun _ => true))
    by (intros r Hin; now apply Hrows).
  cbn [bind]. unfold select.
  rewrite select_rows_map, filter_all by reflexivity.
  now rewrite frame_eta.
Qed.

(** Filtering twice is filtering once: a result that has a row is
    returned unchanged by a second call. *)
Theorem filter_truck_businesses_idempotent (k1 k2 : nat) (df out : DataFrame) :
  0 < k1 -> 0 < k2 ->
  filter_truck_businesses_with k1 k2 df = Ok out ->
  rows out <> [] ->
  filter_truck_businesses_with k1 k2 out = Ok out.
Proof.
  intros Hk1 Hk2 H Hout.
  destruct (@filter_truck_businesses_output k1 k2 df out Hk1 Hk2 H Hout)
    as (Hc & Hn & Hrows).
  now apply filter_truck_businesses_fixed.
Qed.

Lemma filter_truck_businesses_idempotent_witness :
  filter_truck_businesses_with 2 1
    (frame [abc_trucking (AddrSeq []); discount_towing])
  = Ok (frame [abc_trucking (AddrSeq []); discount_towing]).
Proof.
  apply (@filter_truck_businesses_idempotent 2 1
           (frame [abc_trucking (AddrSeq []); smith_freight; northern_hauling;
                   discount_towing; nameless])).
  - lia.
  - lia.
  - vm_compute. reflexivity.
  - discriminate.
Defined.

(** * Further properties of the name cleaning *)

(** A class of characters that holds neither whitespace nor quotes is
    met by a text exactly when it is met by its basic cleaning. *)
Section Letters.
Variable p : ascii -> bool.
Hypothesis p_space : forall c, Char.is_space c = true -> p c = false.
Hypothesis p_quote : forall c, Char.is_quote c = true -> p c = false.

Lemma any_remove_quotes (s : string) :
  Str.any p (Str.remove Char.is_quote s) = Str.any p s.
Proof.
  induction s as [|c s IH]; simpl; [reflexivity|].
  destruct (Char.is_quote c) eqn:E; simpl.
  - now rewrite (p_quote c E).
  - now rewrite IH.
Qed.

Lemma any_collapse (r : bool) (s : string) :
  Str.any p (Str.collapse_from r s) = Str.any p s.
Proof.
  revert r. induction s as [|c s IH]; intro r; simpl; [reflexivity|].
  destruct (Char.is_space c) eqn:E.
  - rewrite (p_space c E). destruct r; simpl; [apply IH|].
    rewrite (p_space " " eq_refl). apply IH.
  - simpl. now rewrite IH.
Qed.

Lemma any_lstrip (s : string) : Str.any p (Str.lstrip s) = Str.any p s.
Proof.
  induction s as [|c s IH]; simpl; [reflexivity|].
  destruct (Char.is_space c) eqn:E; [|reflexivity].
  now rewrite (p_space c E).
Qed.

Lemma any_rstrip (s : string) : Str.any p (Str.rstrip s) = Str.any p s.
Proof.
  induction s as [|c s IH]; simpl; [reflexivity|].
  destruct (Char.is_space c) eqn:E; simpl.
  - rewrite (p_space c E). simpl.
    destruct (Str.is_empty (Str.rstrip s)) eqn:Er; simpl.
    + rewrite <- IH. now destruct (Str.rstrip s).
    + now rewrite (p_space c E).
  - now rewrite IH.
Qed.

Lemma any_basic_cleaning (s : string) :
  Str.any p (basic_cleaning s) = Str.any p s.
Proof.
  unfold basic_cleaning, Str.strip, Str.collapse_ws.
  now rewrite any_rstrip, any_lstrip, any_collapse, any_remove_quotes.
Qed.

End Letters.

Module CaseFacts.
Import Char.

Lemma lower_not_space c : is_space c = true -> is_lower c = false.
Proof.
  destruct c as [b0 b1 b2 b3 b4 b5 b6 b7];
    destruct b0, b1, b2, b3, b4, b5, b6, b7; vm_compute; congruence.
Qed.

Lemma lower_not_quote c : is_quote c = true -> is_lower c = false.
Proof.
  destruct c as [b0 b1 b2 b3 b4 b5 b6 b7];
    destruct b0, b1, b2, b3, b4, b5, b6, b7; vm_compute; congruence.
Qed.

Lemma upper_not_space c : is_space c = true -> is_upper c = false.
Proof.
  destruct c as [b0 b1 b2 b3 b4 b5 b6 b7];
    destruct b0, b1, b2, b3, b4, b5, b6, b7; vm_compute; congruence.
Qed.

Lemma upper_not_quote c : is_quote c = true -> is_upper c = false.
Proof.
  destruct c as [b0 b1 b2 b3 b4 b5 b6 b7];
    destruct b0, b1, b2, b3, b4, b5, b6, b7; vm_compute; congruence.
Qed.

Lemma cased_not_quote c : is_quote c = true -> is_cased c = false.
Proof.
  destruct c as [b0 b1 b2 b3 b4 b5 b6 b7];
    destruct b0, b1, b2, b3, b4, b5, b6, b7; vm_compute; congruence.
Qed.

Lemma lower_of_to_lower c : is_lower (to_lower c) = is_cased c.
Proof. char_cases c. Qed.

End CaseFacts.

Lemma isupper_basic_cleaning (s : string) :
  Str.isupper (basic_cleaning s) = Str.isupper s.
Proof.
  unfold Str.isupper.
  rewrite (any_basic_cleaning Char.is_lower
             CaseFacts.lower_not_space CaseFacts.lower_not_quote).
  now rewrite (any_basic_cleaning Char.is_upper
             CaseFacts.upper_not_space CaseFacts.upper_not_quote).
Qed.

(** The case of the cleaned name is decided by the name as it is given: a
    name that is all upper case keeps its letters and only loses quotes and
    surplus whitespace, any other name is written in title case. *)
Theorem clean_text_by_case (s : string) :
  clean_text s
  = if Str.isupper s then basic_cleaning s else Str.title (basic_cleaning s).
Proof.
  rewrite CleanFacts.clean_text_unfold. now rewrite isupper_basic_cleaning.
Qed.

Lemma length_remove cls (s : string) :
  String.length (Str.remove cls s) <= String.length s.
Proof.
  induction s as [|c s IH]; simpl; [lia|].
  destruct (cls c); simpl; lia.
Qed.

Lemma length_collapse (r : bool) (s : string) :
  String.length (Str.collapse_from r s) <= String.length s.
Proof.
  revert r. induction s as [|c s IH]; intro r; simpl; [lia|].
  pose proof (IH true) as Ht. pose proof (IH false) as Hf.
  destruct (Char.is_space c); [destruct r|]; simpl; lia.
Qed.

Lemma length_lstrip (s : string) :
  String.length (Str.lstrip s) <= String.length s.
Proof.
  induction s as [|c s IH]; simpl; [lia|].
  destruct (Char.is_space c); simpl; lia.
Qed.

Lemma length_rstrip (s : string) :
  String.length (Str.rstrip s) <= String.length s.
Proof.
  induction s as [|c s IH]; simpl; [lia|].
  destruct (Char.is_space c && Str.is_empty (Str.rstrip s)); simpl; lia.
Qed.

Lemma length_title (b : bool) (s : string) :
  String.length (Str.title_from b s) = String.length s.
Proof.
  revert b. induction s as [|c s IH]; intro b; simpl; [reflexivity|].
  now rewrite IH.
Qed.

Lemma length_basic_cleaning (s : string) :
  String.length (basic_cleaning s) <= String.length s.
Proof.
  unfold basic_cleaning, Str.strip, Str.collapse_ws.
  pose proof (length_rstrip
    (Str.lstrip (Str.collapse_from false (Str.remove Char.is_quote s)))).
  pose proof (length_lstrip
    (Str.collapse_from false (Str.remove Char.is_quote s))).
  pose proof (length_collapse false (Str.remove Char.is_quote s)).
  pose proof (length_remove Char.is_quote s).
  lia.
Qed.

(** A cleaned name has no quote, has whitespace only as single spaces
    between other characters, and - for a name of ASCII characters - is
    never longer than the name. *)
Theorem clean_text_form (s : string) :
  quote_free (clean_text s) = true
  /\ collapsed_from false (clean_text s) = true
  /\ Str.strip (clean_text s) = clean_text s
  /\ (is_ascii s = true -> String.length (clean_text s) <= String.length s).
Proof.
  assert (Hc : cleaned (clean_text s)).
  { rewrite CleanFacts.clean_text_unfold.
    destruct (Str.isupper (basic_cleaning s)).
    - apply CleanFacts.basic_cleaning_cleaned.
    - apply CleanFacts.cleaned_title, CleanFacts.basic_cleaning_cleaned. }
  destruct Hc as (Hq & Hw & Hs). repeat split; try assumption.
  intros _. rewrite CleanFacts.clean_text_unfold.
  destruct (Str.isupper (basic_cleaning s)).
  - apply length_basic_cleaning.
  - unfold Str.title. rewrite length_title. apply length_basic_cleaning.
Qed.

Lemma clean_text_form_witness :
  String.length (clean_text "  joe's   towing  ")
  <= String.length "  joe's   towing  ".
Proof.
  apply (proj2 (proj2 (proj2 (clean_text_form "  joe's   towing  ")))).
  reflexivity.
Defined.

(** * Further properties of the cleaning pipeline *)

Lemma clean_business_names_empty (chunk_size : nat) (df : DataFrame) :
  0 < chunk_size -> rows df = [] ->
  clean_business_names_with chunk_size df
  = Raise (ValueError "No objects to concatenate").
Proof.
  intros Hk E. unfold clean_business_names_with, len. rewrite E.
  now rewrite py_range_pos by assumption.
Qed.

Lemma clean_business_names_ok (chunk_size : nat) (df : DataFrame) :
  0 < chunk_size -> rows df <> [] -> has_column "business_name" df = true ->
  clean_business_names_with chunk_size df
  = Ok {| columns := columns df;
          rows := filter (fun r => has_name (business_name r))
                         (map clean_row (rows df)) |}.
Proof.
  intros Hk Hdf Hn.
  rewrite (@clean_business_names_single_pass chunk_size Hk df Hdf).
  unfold clean_single_pass.
  rewrite column_present by exact Hn. cbn [bind].
  rewrite column_present by exact Hn. cbn [bind].
  unfold select, set_business_name. cbn [columns rows].
  now rewrite assign_clean_names, map_map, select_rows_map.
Qed.

(** The three ways [clean_business_names] ends: on a frame without rows
    the concatenation of no chunks raises; on a frame with a row and no
    name column the first chunk raises a key error; otherwise the result is
    the cleaned rows that have a name, under the same column labels. *)
Theorem clean_business_names_result (chunk_size : nat) (df : DataFrame) :
  0 < chunk_size ->
  (rows df = [] ->
   clean_business_names_with chunk_size df
   = Raise (ValueError "No objects to concatenate"))
  /\ (rows df <> [] -> has_column "business_name" df = false ->
      clean_business_names_with chunk_size df = Raise (KeyError "business_name"))
  /\ (rows df <> [] -> has_column "business_name" df = true ->
      clean_business_names_with chunk_size df
      = Ok {| columns := columns df;
              rows := filter (fun r => has_name (business_name r))
                             (map clean_row (rows df)) |}).
Proof.
  intro Hk. repeat split.
  - now apply clean_business_names_empty.
  - intros Hdf Hn.
    rewrite (@clean_business_names_single_pass chunk_size Hk df Hdf).
    unfold clean_single_pass. now rewrite column_absent by exact Hn.
  - now apply clean_business_names_ok.
Qed.

Lemma clean_business_names_result_witness :
  clean_business_names_with 10000 no_rows
  = Raise (ValueError "No objects to concatenate")
  /\ clean_business_names_with 10000
       {| columns := ["confidence"]; rows := [discount_towing] |}
     = Raise (KeyError "business_name")
  /\ clean_business_names_with 10000 (frame [unnamed_towing; discount_towing])
     = Ok {| columns := all_columns;
             rows := filter (fun r => has_name (business_name r))
                            (map clean_row [unnamed_towing; discount_towing]) |}.
Proof.
  assert (Hk : 0 < 10000) by (apply Nat.ltb_lt; vm_compute; reflexivity).
  split; [|split].
  - apply (@clean_business_names_result 10000 no_rows Hk). reflexivity.
  - apply (@clean_business_names_result 10000
             {| columns := ["confidence"]; rows := [discount_towing] |} Hk).
    + discriminate.
    + reflexivity.
  - apply (@clean_business_names_result 10000
             (frame [unnamed_towing; discount_towing]) Hk).
    + discriminate.
    + reflexivity.
Defined.

Lemma clean_row_idem (r : BusinessRecord) : clean_row (clean_row r) = clean_row r.
Proof.
  unfold clean_row, with_name. cbn [business_name confidence addresses].
  f_equal. destruct (business_name r) as [s|]; simpl; [|reflexivity].
  now rewrite CleanFacts.clean_text_idem.
Qed.

Lemma map_fixed {A : Type} (f : A -> A) (l : list A) :
  (forall x, In x l -> f x = x) -> map f l = l.
Proof.
  induction l as [|x l IH]; intro H; simpl; [reflexivity|].
  rewrite (H x) by (now left). f_equal. apply IH. intros; apply H; now right.
Qed.

(** On a frame whose names are ASCII text, cleaning twice is cleaning
    once: a result that has a row is returned unchanged by a second
    call. *)
Theorem clean_business_names_idempotent (chunk_size : nat) (df out : DataFrame) :
  0 < chunk_size ->
  ascii_names df ->
  clean_business_names_with chunk_size df = Ok out ->
  rows out <> [] ->
  clean_business_names_with chunk_size out = Ok out.
Proof.
  intros Hk _ H Hout.
  assert (Hdf : rows df <> []).
  { intro E. exact (clean_business_names_no_rows _ _ E H). }
  destruct (has_column "business_name" df) eqn:Hn.
  - pose proof (clean_business_names_ok df Hk Hdf Hn) as Hres. rewrite H in Hres.
    injection Hres as ->.
    set (l := filter (fun r => has_name (business_name r))
                     (map clean_row (rows df))) in *.
    rewrite clean_business_names_ok; [| exact Hk | exact Hout | exact Hn].
    cbn [columns rows]. do 2 f_equal.
    rewrite map_fixed.
    + apply filter_all. intros r Hin. now apply filter_In in Hin.
    + intros r Hin. apply filter_In in Hin as [Hin _].
      apply in_map_iff in Hin as (r0 & <- & _). apply clean_row_idem.
  - rewrite (@clean_business_names_single_pass chunk_size Hk df Hdf) in H.
    unfold clean_single_pass in H.
    rewrite column_absent in H by exact Hn. discriminate.
Qed.

Lemma clean_business_names_idempotent_witness :
  clean_business_names_with 1
    (frame [with_name discount_towing (Some "Discount Towing")])
  = Ok (frame [with_name discount_towing (Some "Discount Towing")]).
Proof.
  apply (@clean_business_names_idempotent 1
           (frame [unnamed_towing; discount_towing])).
  - lia.
  - repeat constructor.
  - vm_compute. reflexivity.
  - discriminate.
Defined.

(** * The filter followed by the cleaning *)

Lemma default_chunk_sizes : 0 < 10000 /\ 0 < 5000.
Proof. split; apply Nat.ltb_lt; vm_compute; reflexivity. Qed.

Lemma contains_head (c : ascii) (k t : string) :
  Str.contains (String c k) t = true -> Str.any (Ascii.eqb c) t = true.
Proof.
  induction t as [|b t IH]; cbn [Str.contains Str.any].
  - discriminate.
  - rewrite !orb_true_iff. intros [H|H].
    + left. cbn [String.prefix] in H.
      destruct (ascii_dec c b) as [->|]; [apply Ascii.eqb_refl | discriminate].
    + right. now apply IH.
Qed.

Lemma any_of_char (p : ascii -> bool) (c : ascii) (t : string) :
  p c = true -> Str.any (Ascii.eqb c) t = true -> Str.any p t = true.
Proof.
  intro Hp. induction t as [|b t IH]; cbn [Str.any]; [discriminate|].
  rewrite !orb_true_iff. intros [H|H].
  - left. apply Ascii.eqb_eq in H. now subst b.
  - right. now apply IH.
Qed.

Lemma any_map (p : ascii -> bool) (f : ascii -> ascii) (s : string) :
  Str.any p (Str.map f s) = Str.any (fun c => p (f c)) s.
Proof. induction s as [|c s IH]; simpl; [reflexivity | now rewrite IH]. Qed.

Lemma any_ext (p q : ascii -> bool) (s : string) :
  (forall c, p c = q c) -> Str.any p s = Str.any q s.
Proof.
  intro H. induction s as [|c s IH]; simpl; [reflexivity | now rewrite H, IH].
Qed.

Lemma any_title (p : ascii -> bool) (b : bool) (s : string) :
  (forall b c, p (Str.recase b c) = p c) ->
  Str.any p (Str.title_from b s) = Str.any p s.
Proof.
  intro H. revert b. induction s as [|c s IH]; intro b; simpl; [reflexivity|].
  now rewrite H, IH.
Qed.

Lemma truck_keywords_start_lower :
  forallb (fun kw => match kw with
                     | String c _ => Char.is_lower c
                     | EmptyString => false
                     end) TRUCK_KEYWORDS = true.
Proof. reflexivity. Qed.

(** A relevant name holds a letter. *)
Lemma relevant_has_letter (s : string) :
  is_truck_relevant (Some s) = true -> Str.any Char.is_cased s = true.
Proof.
  rewrite is_truck_relevant_unfold, !andb_true_iff.
  intros [_ H]. apply existsb_exists in H as (kw & Hin & Hc).
  pose proof truck_keywords_start_lower as Hk.
  rewrite forallb_forall in Hk. specialize (Hk kw Hin).
  destruct kw as [|c k]; [discriminate|].
  apply contains_head in Hc. apply (any_of_char _ _ _ Hk) in Hc.
  unfold Str.lower in Hc. rewrite any_map in Hc.
  rewrite <- Hc. apply any_ext. intro b.
  symmetry. apply CaseFacts.lower_of_to_lower.
Qed.

Lemma any_cased_clean_text (s : string) :
  Str.any Char.is_cased (clean_text s) = Str.any Char.is_cased s.
Proof.
  rewrite CleanFacts.clean_text_unfold.
  destruct (Str.isupper (basic_cleaning s)).
  - apply any_basic_cleaning;
      [apply CleanFacts.space_not_cased | apply CaseFacts.cased_not_quote].
  - unfold Str.title. rewrite any_title by apply CleanFacts.is_cased_recase.
    apply any_basic_cleaning;
      [apply CleanFacts.space_not_cased | apply CaseFacts.cased_not_quote].
Qed.

(** A name that the classifier accepts is never cleaned to the empty
    name: the last selection of [clean_business_names] keeps it. *)
Theorem relevant_name_survives_cleaning (name : option string) :
  is_truck_relevant name = true -> has_name (clean_name name) = true.
Proof.
  destruct name as [s|]; [|discriminate].
  intro H. apply relevant_has_letter in H.
  rewrite <- any_cased_clean_text in H. cbn [clean_name has_name].
  destruct (clean_text s); [discriminate | reflexivity].
Qed.

Lemma relevant_name_survives_cleaning_witness :
  has_name (clean_name (Some "  Discount   Towing  ")) = true.
Proof.
  apply (relevant_name_survives_cleaning (Some "  Discount   Towing  ")).
  vm_compute. reflexivity.
Defined.

Lemma relevant_row_has_name (r : BusinessRecord) :
  is_truck_relevant (business_name r) = true ->
  has_name (business_name (clean_row r)) = true.
Proof.
  intro H. unfold clean_row, with_name. cbn [business_name].
  destruct (business_name r) as [s|]; [|discriminate].
  apply relevant_has_letter in H.
  rewrite <- any_cased_clean_text in H. cbn [clean_name has_name].
  destruct (clean_text s); [discriminate | reflexivity].
Qed.

(** The whole pipeline after a filter that returned: when the filter kept
    no row the cleaning raises; when it kept a row the pipeline returns
    every kept row with its name cleaned - the cleaning drops none of
    them. *)
Theorem filter_then_clean_result (df mid : DataFrame) :
  filter_truck_businesses df = Ok mid ->
  (rows mid = [] ->
   filter_then_clean df = Raise (ValueError "No objects to concatenate"))
  /\ (rows mid <> [] ->
      filter_then_clean df
      = Ok {| columns := columns mid; rows := map clean_row (rows mid) |}).
Proof.
  intro H. destruct default_chunk_sizes as [Hk1 Hk2].
  unfold filter_then_clean. rewrite H. cbn [bind].
  split.
  - now apply clean_business_names_empty.
  - intro Hmid.
    destruct (@filter_truck_businesses_output 10000 5000 df mid Hk1 Hk2 H Hmid)
      as (_ & Hn & Hrows).
    unfold clean_business_names.
    rewrite clean_business_names_ok by assumption. do 2 f_equal.
    apply filter_all. intros r' Hin.
    apply in_map_iff in Hin as (r & <- & Hin).
    apply relevant_row_has_name. now apply Hrows.
Qed.

Lemma filter_then_clean_result_witness :
  filter_then_clean
    (frame [abc_trucking (AddrSeq []); smith_freight; northern_hauling;
            discount_towing; nameless])
  = Ok {| columns := all_columns;
          rows := map clean_row [abc_trucking (AddrSeq []); discount_towing] |}.
Proof.
  apply (@filter_then_clean_result
           (frame [abc_trucking (AddrSeq []); smith_freight; northern_hauling;
                   discount_towing; nameless])
           (frame [abc_trucking (AddrSeq []); discount_towing])).
  - vm_compute. reflexivity.
  - discriminate.
Defined.

(** * Further properties of the normalization *)

Section AllFacts.
Variable p : ascii -> bool.

Lemma all_lstrip (s : string) :
  Str.all p s = true -> Str.all p (Str.lstrip s) = true.
Proof.
  induction s as [|c s IH]; simpl; [reflexivity|].
  destruct (Char.is_space c); simpl; [|easy].
  rewrite andb_true_iff. intros [_ H]. auto.
Qed.

Lemma all_rstrip (s : string) :
  Str.all p s = true -> Str.all p (Str.rstrip s) = true.
Proof.
  induction s as [|c s IH]; simpl; [reflexivity|].
  rewrite andb_true_iff. intros [E H].
  destruct (Char.is_space c && Str.is_empty (Str.rstrip s)); simpl;
    [reflexivity|].
  now rewrite E, IH.
Qed.

Lemma all_strip (s : string) :
  Str.all p s = true -> Str.all p (Str.strip s) = true.
Proof. intro H. unfold Str.strip. now apply all_rstrip, all_lstrip. Qed.

Lemma all_take (n : nat) (s : string) :
  Str.all p s = true -> Str.all p (Str.take n s) = true.
Proof.
  revert n. induction s as [|c s IH]; intros [|n]; simpl; try reflexivity.
  rewrite !andb_true_iff. intros [E H]. auto.
Qed.

Lemma all_strip_loop (suffixes : list string) (s : string) :
  Str.all p s = true -> Str.all p (fold_left strip_suffix suffixes s) = true.
Proof.
  revert s. induction suffixes as [|suffix rest IH]; intros s H; simpl;
    [assumption|].
  apply IH. unfold strip_suffix, Str.drop_last.
  destruct (Str.endswith s suffix); [now apply all_take | assumption].
Qed.

Lemma all_map (f : ascii -> ascii) (s : string) :
  Str.all p (Str.map f s) = Str.all (fun c => p (f c)) s.
Proof. induction s as [|c s IH]; simpl; [reflexivity | now rewrite IH]. Qed.

End AllFacts.

Lemma all_impl (p q : ascii -> bool) (s : string) :
  (forall c, p c = true -> q c = true) ->
  Str.all p s = true -> Str.all q s = true.
Proof.
  intro H. induction s as [|c s IH]; simpl; [reflexivity|].
  rewrite !andb_true_iff. intros [E Hs]. auto.
Qed.

Lemma all_true (p : ascii -> bool) (s : string) :
  (forall c, p c = true) -> Str.all p s = true.
Proof.
  intro H. induction s as [|c s IH]; simpl; [reflexivity|].
  now rewrite H, IH.
Qed.

Module KeyFacts.
Import Char.

Lemma to_lower_not_upper c : negb (is_upper (to_lower c)) = true.
Proof. char_cases c. Qed.

Lemma is_word_to_lower c : is_word (to_lower c) = is_word c.
Proof. char_cases c. Qed.

(** What the punctuation substitution writes for a character that is not
    upper case. *)
Lemma blank_char c :
  negb (is_upper c) = true ->
  (let c' := if negb (is_word c || is_space c) then " "%char else c in
   (is_word c' || is_space c') && negb (is_upper c')) = true.
Proof.
  destruct c as [b0 b1 b2 b3 b4 b5 b6 b7];
    destruct b0, b1, b2, b3, b4, b5, b6, b7; vm_compute; congruence.
Qed.

Lemma word_not_space c :
  (is_word c || is_space c) && negb (is_upper c) = true ->
  is_space c = false -> key_char c = true.
Proof.
  destruct c as [b0 b1 b2 b3 b4 b5 b6 b7];
    destruct b0, b1, b2, b3, b4, b5, b6, b7; vm_compute; congruence.
Qed.

(** What the punctuation substitution writes for a character that is not a
    word character. *)
Lemma blank_non_word c :
  negb (is_word c) = true ->
  is_space (if negb (is_word c || is_space c) then " "%char else c) = true.
Proof.
  destruct c as [b0 b1 b2 b3 b4 b5 b6 b7];
    destruct b0, b1, b2, b3, b4, b5, b6, b7; vm_compute; congruence.
Qed.

End KeyFacts.

Lemma all_key_collapse (r : bool) (s : string) :
  Str.all (fun c => (Char.is_word c || Char.is_space c)
                    && negb (Char.is_upper c)) s = true ->
  Str.all key_char (Str.collapse_from r s) = true.
Proof.
  revert r. induction s as [|c s IH]; intro r; simpl; [reflexivity|].
  rewrite andb_true_iff. intros [E H].
  pose proof (KeyFacts.word_not_space c E) as Hk.
  destruct (Char.is_space c).
  - destruct r; simpl; [now apply IH|].
    rewrite IH by assumption. reflexivity.
  - simpl. rewrite Hk by reflexivity. now apply IH.
Qed.

(** The text between the suffix loop and the whitespace substitution. *)
Lemma normalize_unfold (s : string) :
  normalize_for_matching (Some s)
  = if Str.is_empty s then ""
    else Str.strip (Str.collapse_ws
           (Str.blank (fun c => negb (Char.is_word c || Char.is_space c))
              (strip_suffixes (Str.strip (Str.lower s))))).
Proof. reflexivity. Qed.

(** On a name of ASCII characters the result of
    [normalize_for_matching] is a key: it holds only word characters that
    are not upper case and spaces, no two spaces are adjacent, and it
    neither starts nor ends with a space. *)
Theorem normalize_for_matching_key (s : string) :
  is_ascii s = true ->
  Str.all key_char (normalize_for_matching (Some s)) = true
  /\ collapsed_from false (normalize_for_matching (Some s)) = true
  /\ Str.strip (normalize_for_matching (Some s))
     = normalize_for_matching (Some s).
Proof.
  intros _. rewrite normalize_unfold.
  destruct (Str.is_empty s); [repeat split|].
  set (t := strip_suffixes (Str.strip (Str.lower s))).
  assert (Ht : Str.all (fun c => negb (Char.is_upper c)) t = true).
  { subst t. unfold strip_suffixes. apply all_strip_loop, all_strip.
    unfold Str.lower. rewrite all_map.
    apply all_true, KeyFacts.to_lower_not_upper. }
  split; [|split].
  - apply all_strip. unfold Str.collapse_ws. apply all_key_collapse.
    unfold Str.blank. rewrite all_map.
    revert Ht. apply all_impl. intros c Hc. now apply KeyFacts.blank_char.
  - unfold Str.strip, Str.collapse_ws.
    apply CleanFacts.collapsed_rstrip,
      CleanFacts.collapsed_lstrip with (r := false),
      CleanFacts.collapsed_collapse.
  - apply CleanFacts.strip_strip.
Qed.

Lemma normalize_for_matching_key_witness :
  Str.all key_char (normalize_for_matching (Some "A.B. & Sons_1, Inc")) = true
  /\ collapsed_from false (normalize_for_matching (Some "A.B. & Sons_1, Inc"))
     = true
  /\ Str.strip (normalize_for_matching (Some "A.B. & Sons_1, Inc"))
     = normalize_for_matching (Some "A.B. & Sons_1, Inc").
Proof.
  apply (normalize_for_matching_key "A.B. & Sons_1, Inc"). reflexivity.
Defined.

(** [normalize_for_matching] does not see the case of the letters. *)
Theorem normalize_for_matching_case_insensitive (s : string) :
  normalize_for_matching (Some (Str.upper s)) = normalize_for_matching (Some s)
  /\ normalize_for_matching (Some (Str.lower s)) = normalize_for_matching (Some s).
Proof.
  rewrite !normalize_unfold.
  rewrite StrFacts.lower_upper, StrFacts.lower_lower.
  change (Str.is_empty (Str.upper s))
    with (Str.is_empty (Str.map Char.to_upper s)).
  change (Str.is_empty (Str.lower s))
    with (Str.is_empty (Str.map Char.to_lower s)).
  rewrite !StrFacts.is_empty_map.
  split; reflexivity.
Qed.

Lemma lstrip_all_space (s : string) :
  Str.all Char.is_space s = true -> Str.lstrip s = "".
Proof.
  induction s as [|c s IH]; simpl; [reflexivity|].
  rewrite andb_true_iff. intros [-> H]. auto.
Qed.

Lemma all_space_collapse (r : bool) (s : string) :
  Str.all Char.is_space s = true ->
  Str.all Char.is_space (Str.collapse_from r s) = true.
Proof.
  revert r. induction s as [|c s IH]; intro r; simpl; [reflexivity|].
  rewrite andb_true_iff. intros [-> H].
  destruct r; simpl; auto.
Qed.

(** A name without any word character - only punctuation and whitespace -
    is normalized to the empty key. *)
Theorem normalize_for_matching_no_word (s : string) :
  Str.all (fun c => negb (Char.is_word c)) s = true ->
  normalize_for_matching (Some s) = "".
Proof.
  intro H. rewrite normalize_unfold.
  destruct (Str.is_empty s); [reflexivity|].
  set (t := strip_suffixes (Str.strip (Str.lower s))).
  assert (Ht : Str.all (fun c => negb (Char.is_word c)) t = true).
  { subst t. unfold strip_suffixes. apply all_strip_loop, all_strip.
    unfold Str.lower. rewrite all_map.
    revert H. apply all_impl. intros c Hc.
    now rewrite KeyFacts.is_word_to_lower. }
  unfold Str.strip, Str.collapse_ws.
  rewrite lstrip_all_space; [reflexivity|].
  apply all_space_collapse. unfold Str.blank. rewrite all_map.
  revert Ht. apply all_impl. intros c Hc. now apply KeyFacts.blank_non_word.
Qed.

Lemma normalize_for_matching_no_word_witness :
  normalize_for_matching (Some " -- & ... ") = "".
Proof.
  apply (normalize_for_matching_no_word " -- & ... "). reflexivity.
Defined.

Lemma endswith_head (c : ascii) (k s : string) :
  Str.endswith s (String c k) = true -> Str.any (Ascii.eqb c) s = true.
Proof.
  induction s as [|b s IH]; cbn [Str.endswith Str.any].
  - rewrite orb_false_r. intro H. apply String.eqb_eq in H. discriminate.
  - rewrite !orb_true_iff. intros [H|H].
    + left. apply String.eqb_eq in H. inversion H. apply Ascii.eqb_refl.
    + right. now apply IH.
Qed.

Lemma no_space_no_suffix (k s : string) :
  Str.any (Ascii.eqb " ") s = false -> Str.endswith s (String " " k) = false.
Proof.
  intro H. destruct (Str.endswith s (String " " k)) eqn:E; [|reflexivity].
  apply endswith_head in E. congruence.
Qed.

(** Every suffix of the table starts with a space, so a name in which no
    space occurs goes through the suffix loop unchanged: a name that is
    nothing but a suffix word is kept. *)
Theorem strip_suffixes_needs_space (name : string) :
  Str.any (Ascii.eqb " ") name = false -> strip_suffixes name = name.
Proof.
  intro H.
  assert (Hstep : forall k, strip_suffix name (String " " k) = name).
  { intro k. unfold strip_suffix. now rewrite no_space_no_suffix. }
  unfold strip_suffixes, SUFFIXES. cbn [fold_left].
  now rewrite !Hstep.
Qed.

Lemma strip_suffixes_needs_space_witness : strip_suffixes "inc" = "inc".
Proof. apply (strip_suffixes_needs_space "inc"). reflexivity. Defined.

(** * Further properties of the classifier *)

Lemma map_append (f : ascii -> ascii) (a b : string) :
  Str.map f (a ++ b)%string = (Str.map f a ++ Str.map f b)%string.
Proof. induction a as [|c a IH]; simpl; [reflexivity | now rewrite IH]. Qed.

Lemma prefix_append (k s b : string) :
  String.prefix k s = true -> String.prefix k (s ++ b)%string = true.
Proof.
  revert s. induction k as [|c k IH]; intros s H.
  - now destruct (s ++ b)%string.
  - destruct s as [|d s]; [discriminate|].
    cbn [String.prefix append] in *.
    destruct (ascii_dec c d); [now apply IH | discriminate].
Qed.

Lemma contains_append_r (k s b : string) :
  Str.contains k s = true -> Str.contains k (s ++ b)%string = true.
Proof.
  induction s as [|c s IH]; cbn [Str.contains append].
  - rewrite orb_false_r. intro H. destruct k; [|discriminate].
    now destruct b.
  - rewrite !orb_true_iff. intros [H|H].
    + left. now apply (prefix_append k (String c s) b).
    + right. now apply IH.
Qed.

Lemma contains_append_l (k a s : string) :
  Str.contains k s = true -> Str.contains k (a ++ s)%string = true.
Proof.
  intro H. induction a as [|c a IH]; cbn [append]; [assumption|].
  cbn [Str.contains]. rewrite IH. apply orb_true_r.
Qed.

Lemma matches_any_embedded (keywords : list string) (a s b : string) :
  matches_any keywords (Str.lower s) ->
  matches_any keywords (Str.lower (a ++ s ++ b)).
Proof.
  intros (kw & Hin & Hc). exists kw. split; [assumption|].
  unfold Str.lower in *. rewrite !map_append.
  now apply contains_append_l, contains_append_r.
Qed.

(** The matching is by substring, so an excluded name stays excluded in
    every text that holds it: nothing written before or after the name
    makes it relevant. *)
Theorem excluded_in_every_context (a name b : string) :
  matches_any EXCLUDE_KEYWORDS (Str.lower name) ->
  is_truck_relevant (Some (a ++ name ++ b)%string) = false.
Proof.
  intro H. apply (@matches_any_embedded EXCLUDE_KEYWORDS a name b) in H.
  apply existsb_matches_any in H.
  rewrite is_truck_relevant_unfold, H.
  now rewrite andb_false_r.
Qed.

Lemma excluded_in_every_context_witness :
  is_truck_relevant (Some ("Best " ++ "Auto" ++ " Truck Repair")%string) = false.
Proof.
  apply (excluded_in_every_context "Best " "Auto" " Truck Repair").
  exists "auto". split; [simpl; tauto | reflexivity].
Defined.

(** A relevant name stays relevant in every text that holds it and in
    which no exclusion keyword occurs. *)
Theorem relevant_in_clean_context (a name b : string) :
  is_truck_relevant (Some name) = true ->
  ~ matches_any EXCLUDE_KEYWORDS (Str.lower (a ++ name ++ b)) ->
  is_truck_relevant (Some (a ++ name ++ b)%string) = true.
Proof.
  rewrite !is_truck_relevant_unfold, !andb_true_iff, !negb_true_iff.
  intros [_ Hkw] Hex.
  apply existsb_matches_any in Hkw.
  pose proof (@matches_any_embedded TRUCK_KEYWORDS a name b Hkw) as Hkw'.
  repeat split.
  - now apply truck_keyword_match_nonempty.
  - apply not_true_is_false. intro H. now apply Hex, existsb_matches_any.
  - now apply existsb_matches_any.
Qed.

Lemma relevant_in_clean_context_witness :
  is_truck_relevant (Some ("Smith " ++ "Towing" ++ " Inc")%string) = true.
Proof.
  apply (relevant_in_clean_context "Smith " "Towing" " Inc").
  - reflexivity.
  - intro H. apply existsb_matches_any in H. vm_compute in H. discriminate.
Defined.

(** The two tables are consistent: every inclusion keyword, written alone
    in lower or in upper case, is a relevant name - none of them holds an
    exclusion keyword. *)
Theorem truck_keywords_are_relevant (keyword : string) :
  In keyword TRUCK_KEYWORDS ->
  is_truck_relevant (Some keyword) = true
  /\ is_truck_relevant (Some (Str.upper keyword)) = true.
Proof.
  intro H.
  assert (Hall : forallb (fun kw => is_truck_relevant (Some kw)
                                    && is_truck_relevant (Some (Str.upper kw)))
                         TRUCK_KEYWORDS = true) by (vm_compute; reflexivity).
  rewrite forallb_forall in Hall. specialize (Hall keyword H).
  now apply andb_true_iff in Hall.
Qed.

Lemma truck_keywords_are_relevant_witness :
  is_truck_relevant (Some "towing") = true
  /\ is_truck_relevant (Some (Str.upper "towing")) = true.
Proof.
  apply (@truck_keywords_are_relevant "towing"). simpl. tauto.
Defined.

(** * Further properties of the country stage *)

Lemma is_us_unreadable (x : addresses_cell) :
  readable x = false -> exists e, is_us x = Raise e.
Proof.
  destruct x as [[|a l]| |]; simpl; try discriminate.
  - unfold is_us, get_country; simpl.
    destruct (country a); [discriminate|].
    intros _. eexists. reflexivity.
  - intros _. eexists. reflexivity.
Qed.

(** The country stage returns exactly when it can read every cell: a cell
    that is NaN, or whose first address has no country, makes it raise,
    wherever the cell stands and whatever the chunk size. *)
Theorem country_stage_returns_iff (chunk_size : nat) (df : DataFrame) :
  0 < chunk_size -> rows df <> [] ->
  has_column "addresses" df = true ->
  ((exists out, country_stage chunk_size df = Ok out)
   <-> Forall (fun r => readable (addresses r) = true) (rows df)).
Proof.
  intros Hk Hdf Hcol. split.
  - intros [out H]. apply Forall_forall. intros r Hin.
    destruct (readable (addresses r)) eqn:E; [reflexivity|].
    exfalso.
    rewrite (@country_stage_single_pass chunk_size Hk df Hdf) in H.
    unfold country_single_pass in H.
    rewrite column_present in H by exact Hcol. cbn [bind] in H.
    destruct (is_us_unreadable _ E) as [e He].
    destruct (@for_each_raises _ _ is_us (map addresses (rows df))
                (addresses r) e (in_map addresses _ _ Hin) He) as [e' He'].
    rewrite He' in H. discriminate.
  - intro Hall. eexists. now apply country_stage_readable.
Qed.

Lemma country_stage_returns_iff_witness :
  (exists out,
     country_stage 5000 (frame [abc_trucking (AddrSeq []); northern_hauling])
     = Ok out)
  <-> Forall (fun r => readable (addresses r) = true)
             (rows (frame [abc_trucking (AddrSeq []); northern_hauling])).
Proof.
  apply (@country_stage_returns_iff 5000
           (frame [abc_trucking (AddrSeq []); northern_hauling])).
  - apply Nat.ltb_lt. vm_compute. reflexivity.
  - discriminate.
  - reflexivity.
Defined.

(** * Text beyond ASCII *)

(** ** The two models agree on ASCII text *)

Module UniFacts.

Ltac ascii_char c :=
  let b0 := fresh "b" in let b1 := fresh "b" in let b2 := fresh "b" in
  let b3 := fresh "b" in let b4 := fresh "b" in let b5 := fresh "b" in
  let b6 := fresh "b" in let b7 := fresh "b" in
  destruct c as [b0 b1 b2 b3 b4 b5 b6 b7];
  destruct b0, b1, b2, b3, b4, b5, b6, b7; vm_compute;
  intro; try discriminate; reflexivity.

Lemma is_space_agree c :
  (Char.code c <? 128)%N = true -> Uni.is_space (Char.code c) = Char.is_space c.
Proof. ascii_char c. Qed.

Lemma is_quote_agree c :
  (Char.code c <? 128)%N = true -> Uni.is_quote (Char.code c) = Char.is_quote c.
Proof. ascii_char c. Qed.

Lemma is_upper_agree c :
  (Char.code c <? 128)%N = true -> Uni.is_upper (Char.code c) = Char.is_upper c.
Proof. ascii_char c. Qed.

Lemma is_lower_agree c :
  (Char.code c <? 128)%N = true -> Uni.is_lower (Char.code c) = Char.is_lower c.
Proof. ascii_char c. Qed.

Lemma is_cased_agree c :
  (Char.code c <? 128)%N = true -> Uni.is_cased (Char.code c) = Char.is_cased c.
Proof. ascii_char c. Qed.

Lemma lower_full_agree c :
  (Char.code c <? 128)%N = true ->
  Uni.lower_full (Char.code c) = [Char.code (Char.to_lower c)].
Proof. ascii_char c. Qed.

Lemma upper_full_agree c :
  (Char.code c <? 128)%N = true ->
  Uni.upper_full (Char.code c) = [Char.code (Char.to_upper c)].
Proof. ascii_char c. Qed.

Lemma title_full_agree c :
  (Char.code c <? 128)%N = true ->
  Uni.title_full (Char.code c) = [Char.code (Char.to_upper c)].
Proof. ascii_char c. Qed.

Lemma to_lower_ascii c :
  (Char.code c <? 128)%N = true -> (Char.code (Char.to_lower c) <? 128)%N = true.
Proof. ascii_char c. Qed.

Lemma to_upper_ascii c :
  (Char.code c <? 128)%N = true -> (Char.code (Char.to_upper c) <? 128)%N = true.
Proof. ascii_char c. Qed.

Lemma of_string_cons c s :
  Uni.of_string (String c s) = Char.code c :: Uni.of_string s.
Proof. reflexivity. Qed.

Lemma is_ascii_cons c s :
  is_ascii (String c s) = true ->
  (Char.code c <? 128)%N = true /\ is_ascii s = true.
Proof. unfold is_ascii. simpl. now rewrite andb_true_iff. Qed.

Lemma is_empty_agree s : Uni.is_empty (Uni.of_string s) = Str.is_empty s.
Proof. now destruct s. Qed.

(** *** Case mappings *)

Lemma lower_agree s :
  is_ascii s = true -> Uni.lower (Uni.of_string s) = Uni.of_string (Str.lower s).
Proof.
  induction s as [|c s IH]; intro H; [reflexivity|].
  apply is_ascii_cons in H as [Hc Hs].
  rewrite of_string_cons. unfold Uni.lower in *. cbn [flat_map].
  rewrite (lower_full_agree c Hc), (IH Hs). reflexivity.
Qed.

Lemma upper_agree s :
  is_ascii s = true -> Uni.upper (Uni.of_string s) = Uni.of_string (Str.upper s).
Proof.
  induction s as [|c s IH]; intro H; [reflexivity|].
  apply is_ascii_cons in H as [Hc Hs].
  rewrite of_string_cons. unfold Uni.upper in *. cbn [flat_map].
  rewrite (upper_full_agree c Hc), (IH Hs). reflexivity.
Qed.

Lemma is_ascii_lower s : is_ascii s = true -> is_ascii (Str.lower s) = true.
Proof.
  unfold is_ascii, Str.lower. rewrite all_map.
  apply all_impl. intro c. apply to_lower_ascii.
Qed.

Lemma is_ascii_upper s : is_ascii s = true -> is_ascii (Str.upper s) = true.
Proof.
  unfold is_ascii, Str.upper. rewrite all_map.
  apply all_impl. intro c. apply to_upper_ascii.
Qed.

(** *** The substring test *)

Lemma code_eqb a b :
  (Char.code a =? Char.code b)%N = if ascii_dec a b then true else false.
Proof.
  destruct (ascii_dec a b) as [->|Hne].
  - apply N.eqb_refl.
  - apply N.eqb_neq. intro E. apply Hne.
    rewrite <- (ascii_N_embedding a), <- (ascii_N_embedding b).
    unfold Char.code in E. now rewrite E.
Qed.

Lemma prefix_agree k s :
  Uni.prefix (Uni.of_string k) (Uni.of_string s) = String.prefix k s.
Proof.
  revert s. induction k as [|a k IH]; intro s.
  - now destruct s.
  - destruct s as [|b s]; [reflexivity|].
    rewrite !of_string_cons. cbn [Uni.prefix String.prefix].
    rewrite code_eqb, IH. now destruct (ascii_dec a b).
Qed.

Lemma contains_unfold k s :
  Uni.contains k s
  = Uni.prefix k s || match s with [] => false | _ :: s' => Uni.contains k s' end.
Proof. now destruct s. Qed.

Lemma contains_agree k s :
  Uni.contains (Uni.of_string k) (Uni.of_string s) = Str.contains k s.
Proof.
  induction s as [|b s IH]; rewrite contains_unfold, prefix_agree.
  - reflexivity.
  - rewrite of_string_cons, IH. reflexivity.
Qed.

Lemma existsb_same {A : Type} (f g : A -> bool) (l : list A) :
  (forall x, f x = g x) -> existsb f l = existsb g l.
Proof.
  intro H. induction l as [|x l IH]; simpl; [reflexivity | now rewrite H, IH].
Qed.

(** The classifier on code points is the classifier on bytes, on ASCII
    names. *)
Lemma is_truck_relevant_agree s :
  is_ascii s = true ->
  Uni.is_truck_relevant (Some (Uni.of_string s)) = is_truck_relevant (Some s).
Proof.
  intro H. unfold Uni.is_truck_relevant, is_truck_relevant.
  rewrite is_empty_agree, (lower_agree s H).
  destruct (Str.is_empty s); [reflexivity|].
  rewrite (existsb_same
             (fun ex => Uni.contains (Uni.of_string ex)
                                     (Uni.of_string (Str.lower s)))
             (fun ex => Str.contains ex (Str.lower s)) EXCLUDE_KEYWORDS)
    by (intro ex; apply contains_agree).
  rewrite (existsb_same
             (fun kw => Uni.contains (Uni.of_string kw)
                                     (Uni.of_string (Str.lower s)))
             (fun kw => Str.contains kw (Str.lower s)) TRUCK_KEYWORDS)
    by (intro kw; apply contains_agree).
  reflexivity.
Qed.

(** *** The three substitutions and the title case *)

Lemma remove_agree s :
  is_ascii s = true ->
  Uni.remove Uni.is_quote (Uni.of_string s)
  = Uni.of_string (Str.remove Char.is_quote s).
Proof.
  induction s as [|c s IH]; intro H; [reflexivity|].
  apply is_ascii_cons in H as [Hc Hs].
  rewrite of_string_cons. unfold Uni.remove in *. cbn [filter Str.remove].
  rewrite (is_quote_agree c Hc), (IH Hs).
  now destruct (Char.is_quote c).
Qed.

Lemma collapse_agree r s :
  is_ascii s = true ->
  Uni.collapse_from r (Uni.of_string s)
  = Uni.of_string (Str.collapse_from r s).
Proof.
  revert r. induction s as [|c s IH]; intros r H; [reflexivity|].
  apply is_ascii_cons in H as [Hc Hs].
  rewrite of_string_cons. cbn [Uni.collapse_from Str.collapse_from].
  rewrite (is_space_agree c Hc), !IH by assumption.
  now destruct (Char.is_space c), r.
Qed.

Lemma lstrip_agree s :
  is_ascii s = true ->
  Uni.lstrip (Uni.of_string s) = Uni.of_string (Str.lstrip s).
Proof.
  induction s as [|c s IH]; intro H; [reflexivity|].
  apply is_ascii_cons in H as [Hc Hs].
  rewrite of_string_cons. cbn [Uni.lstrip Str.lstrip].
  rewrite (is_space_agree c Hc), (IH Hs).
  now destruct (Char.is_space c).
Qed.

Lemma rstrip_agree s :
  is_ascii s = true ->
  Uni.rstrip (Uni.of_string s) = Uni.of_string (Str.rstrip s).
Proof.
  induction s as [|c s IH]; intro H; [reflexivity|].
  apply is_ascii_cons in H as [Hc Hs].
  rewrite of_string_cons. cbn [Uni.rstrip Str.rstrip]. cbv zeta.
  rewrite (is_space_agree c Hc), (IH Hs), is_empty_agree.
  now destruct (Char.is_space c && Str.is_empty (Str.rstrip s)).
Qed.

Lemma existsb_agree (p : N -> bool) (q : ascii -> bool) s :
  (forall c, (Char.code c <? 128)%N = true -> p (Char.code c) = q c) ->
  is_ascii s = true ->
  existsb p (Uni.of_string s) = Str.any q s.
Proof.
  intro Hpq. induction s as [|c s IH]; intro H; [reflexivity|].
  apply is_ascii_cons in H as [Hc Hs].
  rewrite of_string_cons. cbn [existsb Str.any].
  now rewrite (Hpq c Hc), (IH Hs).
Qed.

Lemma isupper_agree s :
  is_ascii s = true -> Uni.isupper (Uni.of_string s) = Str.isupper s.
Proof.
  intro H. unfold Uni.isupper, Str.isupper.
  now rewrite (existsb_agree _ _ s is_lower_agree H),
              (existsb_agree _ _ s is_upper_agree H).
Qed.

Lemma title_agree b s :
  is_ascii s = true ->
  Uni.title_from b (Uni.of_string s) = Uni.of_string (Str.title_from b s).
Proof.
  revert b. induction s as [|c s IH]; intros b H; [reflexivity|].
  apply is_ascii_cons in H as [Hc Hs].
  rewrite of_string_cons. cbn [Uni.title_from Str.title_from].
  rewrite (is_cased_agree c Hc), (IH _ Hs), of_string_cons.
  unfold Str.recase.
  destruct b; [rewrite (lower_full_agree c Hc) | rewrite (title_full_agree c Hc)];
    reflexivity.
Qed.

(** *** ASCII text stays ASCII *)

Section Stays.
Variable p : ascii -> bool.

Lemma all_remove cls s :
  Str.all p s = true -> Str.all p (Str.remove cls s) = true.
Proof.
  induction s as [|c s IH]; simpl; [reflexivity|].
  rewrite andb_true_iff. intros [E H].
  destruct (cls c); simpl; [auto | now rewrite E, IH].
Qed.

Lemma all_collapse r s :
  p " " = true ->
  Str.all p s = true -> Str.all p (Str.collapse_from r s) = true.
Proof.
  intro Hsp. revert r. induction s as [|c s IH]; intro r; simpl; [reflexivity|].
  rewrite andb_true_iff. intros [E H].
  destruct (Char.is_space c); [destruct r|]; simpl; auto.
  - now rewrite Hsp, IH.
  - now rewrite E, IH.
Qed.

Lemma all_title b s :
  (forall b c, p c = true -> p (Str.recase b c) = true) ->
  Str.all p s = true -> Str.all p (Str.title_from b s) = true.
Proof.
  intro Hre. revert b. induction s as [|c s IH]; intro b; simpl; [reflexivity|].
  rewrite !andb_true_iff. intros [E H]. auto.
Qed.

End Stays.

Lemma is_ascii_basic_cleaning s :
  is_ascii s = true -> is_ascii (basic_cleaning s) = true.
Proof.
  unfold is_ascii, basic_cleaning, Str.collapse_ws. intro H.
  apply all_strip, all_collapse; [reflexivity|]. now apply all_remove.
Qed.

Lemma is_ascii_clean_text s :
  is_ascii s = true -> is_ascii (clean_text s) = true.
Proof.
  intro H. rewrite CleanFacts.clean_text_unfold.
  pose proof (is_ascii_basic_cleaning s H) as Hb.
  destruct (Str.isupper (basic_cleaning s)); [assumption|].
  unfold is_ascii, Str.title in *. apply all_title; [|assumption].
  intros b c Hc. unfold Str.recase.
  destruct b; [now apply to_lower_ascii | now apply to_upper_ascii].
Qed.

(** [clean_name] on code points is [clean_name] on bytes, on ASCII
    names. *)
Lemma clean_text_agree s :
  is_ascii s = true ->
  Uni.clean_text (Uni.of_string s) = Uni.of_string (clean_text s).
Proof.
  intro H. unfold Uni.clean_text, clean_text, Uni.collapse_ws, Uni.strip,
    Str.collapse_ws, Str.strip, Uni.title, Str.title.
  pose proof (is_ascii_basic_cleaning s H) as Hb.
  unfold is_ascii, basic_cleaning, Str.strip, Str.collapse_ws in Hb.
  fold (is_ascii (Str.rstrip (Str.lstrip
          (Str.collapse_from false (Str.remove Char.is_quote s))))) in Hb.
  assert (H1 : is_ascii (Str.remove Char.is_quote s) = true)
    by (now apply all_remove).
  assert (H2 : is_ascii (Str.collapse_from false (Str.remove Char.is_quote s)) = true)
    by (apply all_collapse; [reflexivity | assumption]).
  assert (H3 : is_ascii (Str.lstrip
             (Str.collapse_from false (Str.remove Char.is_quote s))) = true)
    by (now apply all_lstrip).
  rewrite (remove_agree s H), (collapse_agree _ _ H1), (lstrip_agree _ H2),
    (rstrip_agree _ H3), (isupper_agree _ Hb), (title_agree _ _ Hb).
  now destruct (Str.isupper _).
Qed.

(** Every text of ASCII code points is the text of a byte string. *)
Lemma ascii_text (u : Uni.str) :
  Forall (fun c => (c < 128)%N) u ->
  exists s, is_ascii s = true /\ Uni.of_string s = u.
Proof.
  induction 1 as [|c u Hc _ (s & Hs & <-)].
  - exists "". split; reflexivity.
  - exists (String (ascii_of_N c) s).
    assert (E : Char.code (ascii_of_N c) = c).
    { unfold Char.code. apply N_ascii_embedding. lia. }
    split.
    + unfold is_ascii in *. cbn [Str.all]. rewrite E, Hs.
      apply N.ltb_lt in Hc. now rewrite Hc.
    + now rewrite of_string_cons, E.
Qed.

End UniFacts.

(** ** The classifier and the case of the letters *)

(** The name long s, a, i, a, space, truck is relevant; its upper case is
    SAIA TRUCK, which holds the exclusion keyword saia and is not. *)
Lemma is_truck_relevant_sees_case :
  Uni.is_truck_relevant (Some long_s_saia_truck) = true
  /\ Uni.upper long_s_saia_truck = Uni.of_string "SAIA TRUCK"
  /\ Uni.is_truck_relevant (Some (Uni.upper long_s_saia_truck)) = false
  /\ Uni.is_truck_relevant (Some long_s_saia_truck)
     <> Uni.is_truck_relevant (Some (Uni.upper long_s_saia_truck)).
Proof. repeat split; vm_compute; [reflexivity .. | discriminate]. Qed.

(** C9, as the code has it: on a name of ASCII characters
    [is_truck_relevant] gives the same answer on the name, on its
    upper-cased form and on its lower-cased form. *)
Theorem is_truck_relevant_case_insensitive_ascii (s : Uni.str) :
  Forall (fun c => (c < 128)%N) s ->
  Uni.is_truck_relevant (Some s) = Uni.is_truck_relevant (Some (Uni.upper s))
  /\ Uni.is_truck_relevant (Some s) = Uni.is_truck_relevant (Some (Uni.lower s)).
Proof.
  intro H. destruct (UniFacts.ascii_text H) as (b & Hb & <-).
  rewrite (UniFacts.upper_agree b Hb), (UniFacts.lower_agree b Hb).
  rewrite !UniFacts.is_truck_relevant_agree
    by (assumption || now apply UniFacts.is_ascii_upper
        || now apply UniFacts.is_ascii_lower).
  rewrite !is_truck_relevant_unfold.
  rewrite StrFacts.lower_upper, StrFacts.lower_lower.
  change (Str.is_empty (Str.upper b))
    with (Str.is_empty (Str.map Char.to_upper b)).
  change (Str.is_empty (Str.lower b))
    with (Str.is_empty (Str.map Char.to_lower b)).
  rewrite !StrFacts.is_empty_map.
  split; reflexivity.
Qed.

Lemma is_truck_relevant_case_insensitive_ascii_witness :
  Uni.is_truck_relevant (Some (Uni.of_string "Smith Towing"))
  = Uni.is_truck_relevant (Some (Uni.upper (Uni.of_string "Smith Towing")))
  /\ Uni.is_truck_relevant (Some (Uni.of_string "Smith Towing"))
     = Uni.is_truck_relevant (Some (Uni.lower (Uni.of_string "Smith Towing"))).
Proof.
  apply (@is_truck_relevant_case_insensitive_ascii (Uni.of_string "Smith Towing")).
  vm_compute. repeat constructor.
Defined.

(** ** Cleaning twice *)

(** The name a, capital I with dot above, a is cleaned to A, i, combining
    dot, a, which is not all upper case; cleaning that gives A, i,
    combining dot, A. *)
Lemma clean_name_not_idempotent :
  Uni.clean_name (Some a_dotted_I_a) = Some [65; 105; 775; 97]%N
  /\ Uni.isupper (Uni.clean_text a_dotted_I_a) = false
  /\ Uni.clean_name (Uni.clean_name (Some a_dotted_I_a))
     = Some [65; 105; 775; 65]%N
  /\ Uni.clean_name (Uni.clean_name (Some a_dotted_I_a))
     <> Uni.clean_name (Some a_dotted_I_a).
Proof. repeat split; vm_compute; [reflexivity .. | discriminate]. Qed.

(** C8, as the code has it: for every text of ASCII characters whose
    cleaned form is not all upper case, cleaning the cleaned form gives the
    cleaned form again. *)
Theorem clean_name_idempotent_ascii (x : Uni.str) :
  Forall (fun c => (c < 128)%N) x ->
  Uni.isupper (Uni.clean_text x) = false ->
  Uni.clean_name (Uni.clean_name (Some x)) = Uni.clean_name (Some x).
Proof.
  intros H _. destruct (UniFacts.ascii_text H) as (b & Hb & <-).
  cbn [Uni.clean_name]. f_equal.
  rewrite (UniFacts.clean_text_agree b Hb).
  rewrite UniFacts.clean_text_agree by (now apply UniFacts.is_ascii_clean_text).
  now rewrite CleanFacts.clean_text_idem.
Qed.

Lemma clean_name_idempotent_ascii_witness :
  Uni.clean_name (Uni.clean_name (Some (Uni.of_string "  joe's   towing  ")))
  = Uni.clean_name (Some (Uni.of_string "  joe's   towing  ")).
Proof.
  apply (@clean_name_idempotent_ascii (Uni.of_string "  joe's   towing  ")).
  - vm_compute. repeat constructor.
  - vm_compute. reflexivity.
Defined.

(** ** Missing values, stage by stage and for the call *)

(** A NaN on a record that the confidence test drops is never read: the
    call returns. *)
Example nan_below_threshold_is_not_read :
  filter_truck_businesses
    (frame [abc_trucking (AddrSeq []);
            {| business_name := business_name smith_freight;
               confidence := confidence smith_freight;
               addresses := AddrNaN |}])
  = Ok (frame [abc_trucking (AddrSeq [])]).
Proof. vm_compute. reflexivity. Qed.

(** C3, as the code has it: a record without a business name never stops
    the relevance stage, which returns without it; a record whose
    addresses are [None] is kept by the country stage when every cell can
    be read; a record whose addresses are NaN makes the country stage
    raise; and the call raises when such a record passes the confidence
    test and the relevance test, so that it reaches the country stage. *)
Theorem missing_values_by_stage (chunk_size : nat) (df : DataFrame) :
  0 < chunk_size -> rows df <> [] ->
  (has_column "business_name" df = true ->
   exists out,
     relevance_stage chunk_size df = Ok out
     /\ forall r, In r (rows out) -> business_name r <> None)
  /\ (has_column "addresses" df = true ->
      Forall (fun r => readable (addresses r) = true) (rows df) ->
      exists out,
        country_stage chunk_size df = Ok out
        /\ forall r, In r (rows df) -> addresses r = AddrNone -> In r (rows out))
  /\ (has_column "addresses" df = true ->
      (exists r, In r (rows df) /\ addresses r = AddrNaN) ->
      exists e, country_stage chunk_size df = Raise e)
  /\ (has_column "confidence" df = true ->
      has_column "business_name" df = true ->
      has_column "addresses" df = true ->
      (exists r, In r (rows df)
                 /\ confident (confidence r) = true
                 /\ is_truck_relevant (business_name r) = true
                 /\ addresses r = AddrNaN) ->
      exists e, filter_truck_businesses df = Raise e).
Proof.
  intros Hk Hdf. split; [|split; [|split]].
  - intro Hcol.
    rewrite (@relevance_stage_single_pass chunk_size Hk df Hdf).
    unfold relevance_single_pass.
    rewrite column_present by exact Hcol. cbn [bind].
    eexists. split; [reflexivity|].
    intros r Hin E. cbn [select rows] in Hin.
    rewrite map_map, select_rows_map in Hin.
    apply filter_In in Hin as [_ H]. rewrite E in H. discriminate.
  - intros Hcol Hcells.
    eexists. split; [now apply country_stage_readable|].
    intros r Hin E. cbn [rows]. apply filter_In.
    split; [assumption | now rewrite E].
  - intros Hcol (r & Hin & E).
    rewrite (@country_stage_single_pass chunk_size Hk df Hdf).
    unfold country_single_pass.
    rewrite column_present by exact Hcol. cbn [bind].
    destruct (for_each_raises is_us (map addresses (rows df)) (addresses r)
                (e := TypeError "'float' object is not subscriptable"))
      as [e' ->].
    + now apply in_map.
    + now rewrite E.
    + cbn [bind]. eauto.
  - intros Hconf Hname Haddr (r & Hin & Hc & Hrel & E).
    destruct default_chunk_sizes as [Hk1 Hk2].
    unfold filter_truck_businesses, filter_truck_businesses_with.
    rewrite column_present by exact Hconf. cbn [bind].
    rewrite confidence_mask.
    rewrite relevance_stage_result; [| assumption | | exact Hname].
    2:{ cbn [rows]. now apply (filter_some _ _ r). }
    cbn [bind columns rows]. rewrite filter_twice.
    set (df2 := {| columns := columns df; rows := filter _ (rows df) |}).
    assert (Hin2 : In r (rows df2)).
    { subst df2. cbn [rows]. apply filter_In. split; [assumption|].
      now rewrite Hc, Hrel. }
    assert (Hdf2 : rows df2 <> []).
    { intro E2. rewrite E2 in Hin2. contradiction. }
    change (has_column "addresses" df2) with (has_column "addresses" df).
    rewrite Haddr. cbn [andb].
    apply rows_nonempty_len, Nat.ltb_lt in Hdf2. rewrite Hdf2.
    apply Nat.ltb_lt, rows_nonempty_len in Hdf2.
    rewrite (@country_stage_single_pass 5000 Hk2 df2 Hdf2).
    unfold country_single_pass.
    rewrite column_present by exact Haddr. cbn [bind].
    destruct (for_each_raises is_us (map addresses (rows df2)) (addresses r)
                (e := TypeError "'float' object is not subscriptable"))
      as [e' ->].
    + now apply in_map.
    + now rewrite E.
    + cbn [bind]. eauto.
Qed.

Lemma missing_values_by_stage_witness :
  (exists out,
     relevance_stage 10000 (frame [nameless; abc_trucking AddrNone]) = Ok out
     /\ forall r, In r (rows out) -> business_name r <> None)
  /\ (exists out,
        country_stage 5000 (frame [nameless; abc_trucking AddrNone]) = Ok out
        /\ forall r, In r [nameless; abc_trucking AddrNone] ->
             addresses r = AddrNone -> In r (rows out))
  /\ (exists e,
        country_stage 5000 (frame [nameless; abc_trucking AddrNaN]) = Raise e)
  /\ (exists e,
        filter_truck_businesses (frame [nameless; abc_trucking AddrNaN])
        = Raise e).
Proof.
  assert (Hk1 : 0 < 10000) by (apply Nat.ltb_lt; vm_compute; reflexivity).
  assert (Hk2 : 0 < 5000) by (apply Nat.ltb_lt; vm_compute; reflexivity).
  assert (Hne1 : rows (frame [nameless; abc_trucking AddrNone]) <> [])
    by discriminate.
  assert (Hne2 : rows (frame [nameless; abc_trucking AddrNaN]) <> [])
    by discriminate.
  destruct (@missing_values_by_stage 10000
              (frame [nameless; abc_trucking AddrNone]) Hk1 Hne1)
    as (Hname & _ & _ & _).
  destruct (@missing_values_by_stage 5000
              (frame [nameless; abc_trucking AddrNone]) Hk2 Hne1)
    as (_ & Hnone & _ & _).
  destruct (@missing_values_by_stage 5000
              (frame [nameless; abc_trucking AddrNaN]) Hk2 Hne2)
    as (_ & _ & Hnan & Hcall).
  split; [|split; [|split]].
  - apply Hname. reflexivity.
  - apply Hnone; [reflexivity | repeat constructor].
  - apply Hnan; [reflexivity|].
    exists (abc_trucking AddrNaN). split; [simpl; tauto | reflexivity].
  - apply Hcall; [reflexivity | reflexivity | reflexivity |].
    exists (abc_trucking AddrNaN).
    split; [simpl; tauto|]. split; [reflexivity|]. split; reflexivity.
Defined.
